(** * RingTonic job orchestration core

    A shallow embedding of the job manager (internal/jobs/jobs.go), of the
    relational store it drives (internal/store/store.go) and of the
    submission handler (internal/api/handlers.go), followed by the
    properties of the job life cycle.  The other routes of the server, the
    webhook client (internal/n8n/client.go) and the configuration
    (internal/config/config.go) are embedded beside them.

    Modelling conventions.
    - Go [string] is [string]; Go [int], [int64] and [time.Duration] are [Z];
      a pointer that may be nil ([*string], [*int]) is an [option].
    - Go [error] is [option string]: [None] is nil, [Some msg] carries the
      text of the error.
    - The SQLite database is modelled by its relational content: the [jobs]
      table is a finite map keyed by its primary key, the [ringtones] table
      is the list of its rows in insertion order together with the
      AUTOINCREMENT counter.
    - A statement that writes is executed or refused by the engine (the
      database locked by another writer of the same program, the disk):
      which of the two is an input of the call, its [fault].  A refused
      statement has no effect and its error is returned.  A statement that
      is executed fails exactly when it violates a constraint of the
      schema.  The statements that only read are taken without faults.
    - The wall clock, the uuid generator, the JSON encoder and the webhook
      endpoint are the environment: their answers are inputs.
    - Logging has no effect on the state and is left out.
    - The retry loop of a job and the handler of a callback run beside each
      other: in the transition system both are cut at each of their calls
      to the store. *)

From Stdlib Require Import ZArith QArith Lia.
From stdpp Require Import base gmap strings list fin_maps pretty.

#[local] Set Warnings "-register-all".

Local Open Scope Z_scope.
Local Open Scope string_scope.
Local Open Scope list_scope.

(** Go's [error] interface value. *)
Definition error := option string.

(** [time.Time] and [time.Duration], both counted in nanoseconds. *)
Definition Time := Z.
Definition Duration := Z.

(** [fmt.Errorf("<prefix>: %w", err)]. *)
Definition wrapf (prefix : string) (err : string) : string :=
  prefix +:+ ": " +:+ err.

(** ** internal/store/store.go *)
Module store.

Record Job := mkJob {
  Job_ID : string;
  Job_SourceURL : string;
  Job_UserID : option string;
  Job_Status : string;
  Job_CreatedAt : Time;
  Job_UpdatedAt : Time;
  Job_Attempts : Z;
  Job_N8NPayload : option string;
  Job_ErrorMessage : option string
}.

Record Ringtone := mkRingtone {
  Ringtone_ID : Z;
  Ringtone_JobID : string;
  Ringtone_FileName : string;
  Ringtone_FilePath : string;
  Ringtone_Format : string;
  Ringtone_DurationSeconds : option Z;
  Ringtone_CreatedAt : Time
}.

Record JobOptions := mkJobOptions {
  JobOptions_StartSeconds : option Z;
  JobOptions_DurationSeconds : option Z;
  JobOptions_FadeIn : bool;
  JobOptions_FadeOut : bool;
  JobOptions_Format : string
}.

Definition StatusQueued := "queued".
Definition StatusProcessing := "processing".
Definition StatusCompleted := "completed".
Definition StatusFailed := "failed".

(** The database behind [Store.db].  [foreign_keys] is the state of the
    pragma of that name: the connection string asks for it, and whether
    the driver honours the request is left open. *)
Record Store := mkStore {
  jobs : gmap string Job;
  ringtones : list Ringtone;
  ringtones_seq : Z;
  foreign_keys : bool
}.

Definition set_jobs (s : Store) (js : gmap string Job) : Store :=
  {| jobs := js; ringtones := ringtones s;
     ringtones_seq := ringtones_seq s; foreign_keys := foreign_keys s |}.

(** Texts of the errors of the engine on a violated constraint. *)
Definition sqlite_unique_jobs_id :=
  "constraint failed: UNIQUE constraint failed: jobs.id".
Definition sqlite_foreign_key :=
  "constraint failed: FOREIGN KEY constraint failed".

(** INSERT INTO jobs (id, source_url, user_id, status, created_at,
    updated_at, attempts, n8n_payload): [error_message] is not in the
    column list, the row gets NULL there.  [fault] is the answer of the
    engine to the statement. *)
Definition CreateJob (fault : error) (job : Job) (s : Store) : Store * error :=
  match fault with
  | Some msg => (s, Some (wrapf "failed to create job" msg))
  | None =>
      match jobs s !! Job_ID job with
      | Some _ => (s, Some (wrapf "failed to create job" sqlite_unique_jobs_id))
      | None =>
          let row := {| Job_ID := Job_ID job;
                        Job_SourceURL := Job_SourceURL job;
                        Job_UserID := Job_UserID job;
                        Job_Status := Job_Status job;
                        Job_CreatedAt := Job_CreatedAt job;
                        Job_UpdatedAt := Job_UpdatedAt job;
                        Job_Attempts := Job_Attempts job;
                        Job_N8NPayload := Job_N8NPayload job;
                        Job_ErrorMessage := None |} in
          (set_jobs s (<[Job_ID job := row]> (jobs s)), None)
      end
  end.

(** SELECT ... FROM jobs WHERE id = ?; no row is [(nil, nil)]. *)
Definition GetJob (id : string) (s : Store) : Store * (option Job * error) :=
  (s, (jobs s !! id, None)).

(** The row after SET status = ?, updated_at = CURRENT_TIMESTAMP,
    error_message = ?. *)
Definition with_status (status : string) (errorMessage : option string)
    (now : Time) (j : Job) : Job :=
  {| Job_ID := Job_ID j;
     Job_SourceURL := Job_SourceURL j;
     Job_UserID := Job_UserID j;
     Job_Status := status;
     Job_CreatedAt := Job_CreatedAt j;
     Job_UpdatedAt := now;
     Job_Attempts := Job_Attempts j;
     Job_N8NPayload := Job_N8NPayload j;
     Job_ErrorMessage := errorMessage |}.

(** The row after SET attempts = attempts + 1,
    updated_at = CURRENT_TIMESTAMP. *)
Definition with_attempt (now : Time) (j : Job) : Job :=
  {| Job_ID := Job_ID j;
     Job_SourceURL := Job_SourceURL j;
     Job_UserID := Job_UserID j;
     Job_Status := Job_Status j;
     Job_CreatedAt := Job_CreatedAt j;
     Job_UpdatedAt := now;
     Job_Attempts := Job_Attempts j + 1;
     Job_N8NPayload := Job_N8NPayload j;
     Job_ErrorMessage := Job_ErrorMessage j |}.

(** UPDATE jobs SET status = ?, updated_at = CURRENT_TIMESTAMP,
    error_message = ? WHERE id = ?.  No row matching is not an error. *)
Definition UpdateJobStatus (fault : error) (id status : string)
    (errorMessage : option string) (now : Time) (s : Store) : Store * error :=
  match fault with
  | Some msg => (s, Some (wrapf "failed to update job status" msg))
  | None =>
      (set_jobs s (alter (with_status status errorMessage now) id (jobs s)), None)
  end.

(** UPDATE jobs SET attempts = attempts + 1,
    updated_at = CURRENT_TIMESTAMP WHERE id = ?. *)
Definition IncrementJobAttempts (fault : error) (id : string) (now : Time)
    (s : Store) : Store * error :=
  match fault with
  | Some msg => (s, Some (wrapf "failed to increment job attempts" msg))
  | None => (set_jobs s (alter (with_attempt now) id (jobs s)), None)
  end.

(** INSERT INTO ringtones (...): the row id comes from the AUTOINCREMENT
    counter and is written back into the caller's record, which is the
    second component of the result. *)
Definition CreateRingtone (fault : error) (ringtone : Ringtone) (s : Store)
    : Store * (Ringtone * error) :=
  match fault with
  | Some msg => (s, (ringtone, Some (wrapf "failed to create ringtone" msg)))
  | None =>
      if foreign_keys s &&
         negb (bool_decide (is_Some (jobs s !! Ringtone_JobID ringtone)))
      then (s, (ringtone, Some (wrapf "failed to create ringtone" sqlite_foreign_key)))
      else
        let id := ringtones_seq s + 1 in
        let row := {| Ringtone_ID := id;
                      Ringtone_JobID := Ringtone_JobID ringtone;
                      Ringtone_FileName := Ringtone_FileName ringtone;
                      Ringtone_FilePath := Ringtone_FilePath ringtone;
                      Ringtone_Format := Ringtone_Format ringtone;
                      Ringtone_DurationSeconds := Ringtone_DurationSeconds ringtone;
                      Ringtone_CreatedAt := Ringtone_CreatedAt ringtone |} in
        ({| jobs := jobs s; ringtones := ringtones s ++ [row];
            ringtones_seq := id; foreign_keys := foreign_keys s |},
         (row, None))
  end.

(** The rows of [ringtones] that belong to a job. *)
Definition ringtones_of (jobID : string) (s : Store) : list Ringtone :=
  filter (λ r, Ringtone_JobID r = jobID) (ringtones s).

(** SELECT ... FROM ringtones WHERE job_id = ?, first row ([QueryRow]). *)
Definition GetRingtoneByJobID (jobID : string) (s : Store)
    : Store * (option Ringtone * error) :=
  (s, (head (ringtones_of jobID s), None)).

(** The rows of [ringtones] with a given file name. *)
Definition ringtones_named (fileName : string) (s : Store) : list Ringtone :=
  filter (λ r, Ringtone_FileName r = fileName) (ringtones s).

(** SELECT ... FROM ringtones WHERE file_name = ?, first row ([QueryRow]). *)
Definition GetRingtoneByFileName (fileName : string) (s : Store)
    : Store * (option Ringtone * error) :=
  (s, (head (ringtones_named fileName s), None)).




End store.

(** ** internal/jobs/jobs.go *)
Module jobs.
Import store.

Record CreateJobRequest := mkCreateJobRequest {
  CreateJobRequest_SourceURL : string;
  CreateJobRequest_UserID : option string;
  CreateJobRequest_Options : option JobOptions
}.

Record CreateJobResponse := mkCreateJobResponse {
  CreateJobResponse_JobID : string;
  CreateJobResponse_Status : string;
  CreateJobResponse_PollURL : string
}.

Record JobStatusResponse := mkJobStatusResponse {
  JobStatusResponse_JobID : string;
  JobStatusResponse_Status : string;
  JobStatusResponse_CreatedAt : Time;
  JobStatusResponse_UpdatedAt : Time;
  JobStatusResponse_DownloadURL : option string;
  JobStatusResponse_Error : option string
}.

(** A decoded JSON value, as [encoding/json] stores it in an
    [interface{}]: every number is a [float64], denoted here by the
    rational it stands for. *)
Inductive JSONValue :=
| JNull
| JBool (b : bool)
| JNumber (q : Q)
| JString (s : string)
| JArray (l : list JSONValue)
| JObject (l : list (string * JSONValue)).

Record CallbackRequest := mkCallbackRequest {
  CallbackRequest_JobID : string;
  CallbackRequest_Status : string;
  CallbackRequest_FilePath : option string;
  CallbackRequest_Metadata : option (gmap string JSONValue)
}.

(** [req.Metadata[key].(float64)] and [req.Metadata[key].(string)]: the
    comma-ok type assertions; indexing a nil map finds nothing. *)
Definition metadata_float64 (md : option (gmap string JSONValue)) (key : string)
    : option Q :=
  match md with
  | Some m => match m !! key with Some (JNumber q) => Some q | _ => None end
  | None => None
  end.

Definition metadata_string (md : option (gmap string JSONValue)) (key : string)
    : option string :=
  match md with
  | Some m => match m !! key with Some (JString s) => Some s | _ => None end
  | None => None
  end.

(** [int(d)] for a [float64]: the fraction is dropped, toward zero. *)
Definition int_of_float64 (d : Q) : Z := Z.quot (Qnum d) (Zpos (Qden d)).

(** The [map[string]interface{}] handed to the webhook: its four keys. *)
Record N8NPayload := mkN8NPayload {
  payload_job_id : string;
  payload_source_url : string;
  payload_options : JobOptions;
  payload_callback_url : string
}.

(** What [go m.triggerN8NWorkflow(jobID, n8nPayload)] launches. *)
Record Spawn := mkSpawn {
  spawn_jobID : string;
  spawn_payload : N8NPayload
}.

(** External effects of the retry loop, in program order. *)
Inductive Event :=
| EvWebhook (attempt : Z) (payload : N8NPayload)
| EvSleep (d : Duration).

(** What the environment answers during one turn of the retry loop: the
    database clock and the answer of the engine at the two writes, and the
    result of [TriggerWebhook]. *)
Record AttemptEnv := mkAttemptEnv {
  at_increment : Time;
  fault_increment : error;
  webhook : error;
  at_update : Time;
  fault_update : error
}.

Definition maxAttempts : Z := 3.
Definition baseDelay : Duration := 1000000000.  (* time.Second *)

(** Two's complement wrap-around of a 64-bit signed integer. *)
Definition wrap64 (z : Z) : Z := (z + 2 ^ 63) mod 2 ^ 64 - 2 ^ 63.

(** [baseDelay * time.Duration(1<<(attempt-1))]. *)
Definition backoff (attempt : Z) : Duration :=
  wrap64 (baseDelay * wrap64 (Z.shiftl 1 (attempt - 1))).

(** [fmt.Sprintf("Failed to trigger n8n after %d attempts: %v", maxAttempts, err)]. *)
Definition exhaustedMsg (err : string) : string :=
  "Failed to trigger n8n after " +:+ pretty maxAttempts +:+ " attempts: " +:+ err.

Section Manager.

(** [json.Marshal] on the webhook payload. *)
Variable json_Marshal : N8NPayload -> string * error.

(** [Manager.CreateJob].  [jobID] is the answer of [uuid.New().String()],
    [now] that of [time.Now()], [fault] that of the engine to the INSERT.
    The result is the store, the pair the Go function returns and the
    goroutine it has launched, if any. *)
Definition CreateJob (jobID : string) (now : Time) (fault : error)
    (req : CreateJobRequest) (s : Store)
    : Store * (option CreateJobResponse * error) * option Spawn :=
  let options :=
    match CreateJobRequest_Options req with
    | None => {| JobOptions_StartSeconds := None;
                 JobOptions_DurationSeconds := None;
                 JobOptions_FadeIn := false;
                 JobOptions_FadeOut := false;
                 JobOptions_Format := "mp3" |}
    | Some o => o
    end in
  let options :=
    if String.eqb (JobOptions_Format options) ""
    then {| JobOptions_StartSeconds := JobOptions_StartSeconds options;
            JobOptions_DurationSeconds := JobOptions_DurationSeconds options;
            JobOptions_FadeIn := JobOptions_FadeIn options;
            JobOptions_FadeOut := JobOptions_FadeOut options;
            JobOptions_Format := "mp3" |}
    else options in
  let n8nPayload :=
    {| payload_job_id := jobID;
       payload_source_url := CreateJobRequest_SourceURL req;
       payload_options := options;
       payload_callback_url := "http://backend:8080/api/v1/n8n-callback" |} in
  match json_Marshal n8nPayload with
  | (_, Some err) =>
      (s, (None, Some (wrapf "failed to marshal n8n payload" err)), None)
  | (payloadStr, None) =>
      let job := {| Job_ID := jobID;
                    Job_SourceURL := CreateJobRequest_SourceURL req;
                    Job_UserID := CreateJobRequest_UserID req;
                    Job_Status := StatusQueued;
                    Job_CreatedAt := now;
                    Job_UpdatedAt := now;
                    Job_Attempts := 0;
                    Job_N8NPayload := Some payloadStr;
                    Job_ErrorMessage := None |} in
      match store.CreateJob fault job s with
      | (s1, Some err) =>
          (s1, (None, Some (wrapf "failed to create job in database" err)), None)
      | (s1, None) =>
          (s1,
           (Some {| CreateJobResponse_JobID := jobID;
                    CreateJobResponse_Status := StatusQueued;
                    CreateJobResponse_PollURL := "/api/v1/job-status/" +:+ jobID |},
            None),
           Some {| spawn_jobID := jobID; spawn_payload := n8nPayload |})
      end
  end.

End Manager.

(** The body of the [for] loop of [Manager.triggerN8NWorkflow], from the
    turn [attempt] on.  [fuel] bounds the number of turns of the model;
    [None] is an exhausted bound, never a result of the Go function.  The
    errors of the store are logged and the loop goes on. *)
Fixpoint retry_from (fuel : nat) (attempt : Z) (jobID : string)
    (payload : N8NPayload) (env : Z -> AttemptEnv) (s : Store)
    : option (Store * list Event) :=
  match fuel with
  | O => None
  | S fuel' =>
      if (attempt <=? maxAttempts)%Z then
        let e := env attempt in
        let '(s1, _) :=
          IncrementJobAttempts (fault_increment e) jobID (at_increment e) s in
        match webhook e with
        | Some err =>
            if (attempt =? maxAttempts)%Z then
              let errorMsg := exhaustedMsg err in
              let '(s2, _) :=
                UpdateJobStatus (fault_update e) jobID StatusFailed (Some errorMsg)
                  (at_update e) s1 in
              Some (s2, [EvWebhook attempt payload])
            else
              let delay := backoff attempt in
              match retry_from fuel' (attempt + 1) jobID payload env s1 with
              | Some (s', evs) =>
                  Some (s', EvWebhook attempt payload :: EvSleep delay :: evs)
              | None => None
              end
        | None =>
            let '(s2, _) :=
              UpdateJobStatus (fault_update e) jobID StatusProcessing None
                (at_update e) s1 in
            Some (s2, [EvWebhook attempt payload])
        end
      else Some (s, [])
  end.

(** [Manager.triggerN8NWorkflow]: [for attempt := 1; attempt <= maxAttempts; attempt++]. *)
Definition triggerN8NWorkflow (jobID : string) (payload : N8NPayload)
    (env : Z -> AttemptEnv) (s : Store) : option (Store * list Event) :=
  retry_from (Z.to_nat maxAttempts) 1 jobID payload env s.

(** [Manager.GetJobStatus]. *)
Definition GetJobStatus (jobID : string) (s : Store)
    : Store * (option JobStatusResponse * error) :=
  match GetJob jobID s with
  | (s1, (_, Some err)) => (s1, (None, Some (wrapf "failed to get job" err)))
  | (s1, (None, None)) => (s1, (None, Some "job not found"))
  | (s1, (Some job, None)) =>
      let response (downloadURL : option string) :=
        {| JobStatusResponse_JobID := Job_ID job;
           JobStatusResponse_Status := Job_Status job;
           JobStatusResponse_CreatedAt := Job_CreatedAt job;
           JobStatusResponse_UpdatedAt := Job_UpdatedAt job;
           JobStatusResponse_DownloadURL := downloadURL;
           JobStatusResponse_Error := Job_ErrorMessage job |} in
      if String.eqb (Job_Status job) StatusCompleted then
        match GetRingtoneByJobID jobID s1 with
        | (s2, (_, Some err)) => (s2, (Some (response None), None))
        | (s2, (Some ringtone, None)) =>
            (s2, (Some (response (Some ("/download/" +:+ Ringtone_FileName ringtone))), None))
        | (s2, (None, None)) => (s2, (Some (response None), None))
        end
      else (s1, (Some (response None), None))
  end.

(** [Manager.handleCompletedCallback]; [now] is [time.Now()] for the new
    record and the database clock for the status write, [fault_insert] and
    [fault_status] are the answers of the engine to the INSERT and to the
    UPDATE. *)
Definition handleCompletedCallback (req : CallbackRequest) (now : Time)
    (fault_insert fault_status : error) (s : Store) : Store * error :=
  match CallbackRequest_FilePath req with
  | None => (s, Some "file_path is required for completed status")
  | Some filePath =>
      let duration :=
        match metadata_float64 (CallbackRequest_Metadata req) "duration" with
        | Some d => Some (int_of_float64 d)
        | None => None
        end in
      let ringtone := {| Ringtone_ID := 0;
                         Ringtone_JobID := CallbackRequest_JobID req;
                         Ringtone_FileName := filePath;
                         Ringtone_FilePath := filePath;
                         Ringtone_Format := "mp3";
                         Ringtone_DurationSeconds := duration;
                         Ringtone_CreatedAt := now |} in
      match CreateRingtone fault_insert ringtone s with
      | (s1, (_, Some err)) =>
          (s1, Some (wrapf "failed to create ringtone record" err))
      | (s1, (_, None)) =>
          match UpdateJobStatus fault_status (CallbackRequest_JobID req)
                  StatusCompleted None now s1 with
          | (s2, Some err) => (s2, Some (wrapf "failed to update job status" err))
          | (s2, None) => (s2, None)
          end
      end
  end.

(** [Manager.handleFailedCallback]. *)
Definition handleFailedCallback (req : CallbackRequest) (now : Time)
    (fault_status : error) (s : Store) : Store * error :=
  let errorMessage :=
    match metadata_string (CallbackRequest_Metadata req) "error" with
    | Some msg => msg
    | None => "Job failed in n8n workflow"
    end in
  match UpdateJobStatus fault_status (CallbackRequest_JobID req) StatusFailed
          (Some errorMessage) now s with
  | (s1, Some err) => (s1, Some (wrapf "failed to update job status" err))
  | (s1, None) => (s1, None)
  end.

(** [Manager.HandleCallback]. *)
Definition HandleCallback (req : CallbackRequest) (now : Time)
    (fault_insert fault_status : error) (s : Store) : Store * error :=
  match GetJob (CallbackRequest_JobID req) s with
  | (s1, (_, Some err)) => (s1, Some (wrapf "failed to get job" err))
  | (s1, (None, None)) => (s1, Some "job not found")
  | (s1, (Some job, None)) =>
      if String.eqb (CallbackRequest_Status req) StatusCompleted then
        handleCompletedCallback req now fault_insert fault_status s1
      else if String.eqb (CallbackRequest_Status req) StatusFailed then
        handleFailedCallback req now fault_status s1
      else (s1, Some ("unknown callback status: " +:+ CallbackRequest_Status req))
  end.

End jobs.

(** ** internal/n8n/client.go *)
Module n8n.
Import store jobs.

(** The request handed to [httpClient.Do].  The header is keyed by the
    canonical form [net/http] gives to a name. *)
Record Request := mkRequest {
  Request_Method : string;
  Request_URL : string;
  Request_Header : gmap string string;
  Request_Body : string
}.

(** What [httpClient.Do] comes back with: an error, or a response and its
    status code. *)
Inductive Answer :=
| TransportError (err : string)
| StatusCode (code : Z).

Section Client.

Variable webhookURL secret : string.

(** [json.Marshal] on the payload, and the error of [http.NewRequest], nil
    unless the configured address cannot be parsed. *)
Variable json_Marshal : N8NPayload -> string * error.
Variable NewRequest : error.

(** The request [TriggerWebhook] builds; [payload["job_id"].(string)]
    always holds for the payload of the job manager. *)
Definition webhook_request (payload : N8NPayload) (jsonData : string) : Request :=
  {| Request_Method := "POST";
     Request_URL := webhookURL;
     Request_Header :=
       <["X-Request-Id" := payload_job_id payload]>
         (<["X-Webhook-Token" := secret]>
            (<["Content-Type" := "application/json"]> ∅));
     Request_Body := jsonData |}.

(** [Client.TriggerWebhook]; [Do] is the network. *)
Definition TriggerWebhook (payload : N8NPayload) (Do : Request -> Answer) : error :=
  match json_Marshal payload with
  | (_, Some err) => Some (wrapf "failed to marshal payload" err)
  | (jsonData, None) =>
      match NewRequest with
      | Some err => Some (wrapf "failed to create request" err)
      | None =>
          match Do (webhook_request payload jsonData) with
          | TransportError err => Some (wrapf "failed to send request" err)
          | StatusCode code =>
              if ((code <? 200) || (code >=? 300))%Z
              then Some ("webhook returned non-2xx status: " +:+ pretty code)
              else None
          end
      end
  end.

(** [Client.VerifyWebhookSignature]: [hmac.Equal] on the bytes of the two
    strings. *)
Definition VerifyWebhookSignature (token : string) : bool :=
  String.eqb token secret.

End Client.

End n8n.

(** ** internal/api/handlers.go *)
Module api.
Import store jobs.

(** The JSON body: an [ErrorResponse], or the encoding of the pointer the
    job manager returned. *)
Inductive Body :=
| ErrorResponse (Error Code : string)
| Accepted (response : option CreateJobResponse).

Record Response := mkResponse {
  Response_StatusCode : Z;
  Response_Body : Body
}.

Definition StatusAccepted : Z := 202.
Definition StatusBadRequest : Z := 400.
Definition StatusInternalServerError : Z := 500.

(** [Server.writeError]. *)
Definition writeError (message code : string) (statusCode : Z) : Response :=
  {| Response_StatusCode := statusCode;
     Response_Body := ErrorResponse message code |}.

(** [strings.ToLower] on the bytes of the string: the letters A to Z are
    mapped to a to z.  Code points outside ASCII never lower to a byte of
    the two prefixes tested below, so the test sees the same answer. *)
Definition lower_byte (c : Ascii.ascii) : Ascii.ascii :=
  let n := Ascii.N_of_ascii c in
  if ((65 <=? n) && (n <=? 90))%N then Ascii.ascii_of_N (n + 32) else c.

Fixpoint ToLower (s : string) : string :=
  match s with
  | EmptyString => EmptyString
  | String c s' => String (lower_byte c) (ToLower s')
  end.

(** [strings.HasPrefix(s, prefix)]. *)
Definition HasPrefix (s prefix : string) : bool := String.prefix prefix s.

(** [Server.isValidURL]. *)
Definition isValidURL (url : string) : bool :=
  let url := ToLower url in
  HasPrefix url "http://" || HasPrefix url "https://".

Section Server.

Variable json_Marshal : N8NPayload -> string * error.

(** [Server.handleCreateRingtone].  [body] is what the JSON decoder made
    of the request body, [None] when it reported an error. *)
Definition handleCreateRingtone (jobID : string) (now : Time) (fault : error)
    (body : option CreateJobRequest) (s : Store)
    : Store * Response * option Spawn :=
  match body with
  | None =>
      (s, writeError "Invalid JSON payload" "INVALID_JSON" StatusBadRequest, None)
  | Some req =>
      if String.eqb (CreateJobRequest_SourceURL req) "" then
        (s, writeError "source_url is required" "MISSING_SOURCE_URL" StatusBadRequest,
         None)
      else if negb (isValidURL (CreateJobRequest_SourceURL req)) then
        (s, writeError "Invalid source URL format" "INVALID_URL" StatusBadRequest,
         None)
      else
        match CreateJob json_Marshal jobID now fault req s with
        | (s1, (_, Some err), spawned) =>
            (s1,
             writeError "Failed to create job" "JOB_CREATION_ERROR"
               StatusInternalServerError,
             spawned)
        | (s1, (response, None), spawned) =>
            (s1,
             {| Response_StatusCode := StatusAccepted;
                Response_Body := Accepted response |},
             spawned)
        end
  end.

End Server.

Definition StatusOK : Z := 200.
Definition StatusUnauthorized : Z := 401.
Definition StatusForbidden : Z := 403.
Definition StatusNotFound : Z := 404.

(** [strings.Contains(s, substr)]. *)
Fixpoint Contains (s substr : string) : bool :=
  String.prefix substr s ||
  match s with
  | EmptyString => false
  | String _ s' => Contains s' substr
  end.

(** How a handler ends: it has written an error with [writeError] and
    returned, or it has gone through to its last statement. *)
Inductive Outcome (A : Type) :=
| Refused (r : Response)
| Done (a : A).
Arguments Refused {A} r.
Arguments Done {A} a.

(** [Server.handleJobStatus]; [jobID] is the parameter of the route.  At
    [Done] the response is encoded with no explicit status code, which is
    a 200. *)
Definition handleJobStatus (jobID : string) (s : Store)
    : Store * Outcome (option JobStatusResponse) :=
  if String.eqb jobID "" then
    (s, Refused (writeError "Job ID is required" "MISSING_JOB_ID" StatusBadRequest))
  else
    match GetJobStatus jobID s with
    | (s1, (_, Some err)) =>
        if Contains err "not found" then
          (s1, Refused (writeError "Job not found" "JOB_NOT_FOUND" StatusNotFound))
        else
          (s1, Refused (writeError "Failed to get job status" "JOB_STATUS_ERROR"
                          StatusInternalServerError))
    | (s1, (response, None)) => (s1, Done response)
    end.

(** The double quote, and the literal body of an accepted callback. *)
Definition dquote : string := String (Ascii.ascii_of_nat 34) EmptyString.
Definition callback_ok : string :=
  "{" +:+ dquote +:+ "status" +:+ dquote +:+ ":" +:+ dquote +:+ "ok" +:+ dquote +:+ "}".

(** [Server.handleN8NCallback].  [token] is the value of the header
    [X-Webhook-Token], empty when the header is absent; [body] is what the
    JSON decoder made of the request body, [None] when it reported an
    error.  At [Done] the status code and the body written. *)
Definition handleN8NCallback (WebhookSecret token : string)
    (body : option CallbackRequest) (now : Time)
    (fault_insert fault_status : error) (s : Store)
    : Store * Outcome (Z * string) :=
  if String.eqb token "" then
    (s, Refused (writeError "Missing webhook token" "MISSING_TOKEN" StatusUnauthorized))
  else if negb (String.eqb token WebhookSecret) then
    (s, Refused (writeError "Invalid webhook token" "INVALID_TOKEN" StatusUnauthorized))
  else
    match body with
    | None =>
        (s, Refused (writeError "Invalid JSON payload" "INVALID_JSON" StatusBadRequest))
    | Some req =>
        if String.eqb (CallbackRequest_JobID req) "" then
          (s, Refused (writeError "job_id is required" "MISSING_JOB_ID" StatusBadRequest))
        else if String.eqb (CallbackRequest_Status req) "" then
          (s, Refused (writeError "status is required" "MISSING_STATUS" StatusBadRequest))
        else
          match HandleCallback req now fault_insert fault_status s with
          | (s1, Some err) =>
              (s1, Refused (writeError "Failed to process callback" "CALLBACK_ERROR"
                              StatusInternalServerError))
          | (s1, None) => (s1, Done (StatusOK, callback_ok))
          end
    end.

(** [Server.handleDownload] up to its call of [FileManager.ServeFile]:
    [Done filename] is that call, whose answer depends on the files on
    disk. *)
Definition handleDownload (filename : string) (s : Store)
    : Store * Outcome string :=
  if String.eqb filename "" then
    (s, Refused (writeError "Filename is required" "MISSING_FILENAME" StatusBadRequest))
  else
    match GetRingtoneByFileName filename s with
    | (s1, (_, Some err)) =>
        (s1, Refused (writeError "File not found" "FILE_NOT_FOUND" StatusNotFound))
    | (s1, (None, None)) =>
        (s1, Refused (writeError "File not found" "FILE_NOT_FOUND" StatusNotFound))
    | (s1, (Some ringtone, None)) =>
        match GetJob (Ringtone_JobID ringtone) s1 with
        | (s2, (_, Some err)) =>
            (s2, Refused (writeError "Internal server error" "INTERNAL_ERROR"
                            StatusInternalServerError))
        | (s2, (job, None)) =>
            if match job with
               | None => true
               | Some j => negb (String.eqb (Job_Status j) StatusCompleted)
               end
            then
              (s2, Refused (writeError "File not available" "FILE_NOT_AVAILABLE"
                              StatusForbidden))
            else (s2, Done filename)
        end
    end.




End api.

(** ** internal/config/config.go *)
Module config.

Record Config := mkConfig {
  Port : string;
  DBPath : string;
  StoragePath : string;
  N8NWebhookURL : string;
  N8NWebhookSecret : string;
  LogLevel : string
}.

(** [os.Getenv] on the environment of the process: empty for a variable
    that is not set. *)
Definition Getenv (environ : gmap string string) (key : string) : string :=
  default "" (environ !! key).

Section Environ.

Variable environ : gmap string string.

(** [getEnv]. *)
Definition getEnv (key defaultValue : string) : string :=
  let value := Getenv environ key in
  if negb (String.eqb value "") then value else defaultValue.

(** [Load]. *)
Definition Load : Config :=
  {| Port := getEnv "BACKEND_PORT" "8081";
     DBPath := getEnv "DB_PATH" "./data/ringtonic.db";
     StoragePath := getEnv "STORAGE_PATH" "./storage";
     N8NWebhookURL := getEnv "N8N_WEBHOOK_URL" "http://n8n:5678/webhook/ringtonic";
     N8NWebhookSecret := getEnv "N8N_WEBHOOK_SECRET" "your-secure-secret-here";
     LogLevel := getEnv "LOG_LEVEL" "info" |}.

End Environ.

End config.

(** ** The orchestrator as a transition system

    [Manager.CreateJob] launches [triggerN8NWorkflow] with [go], and the
    server runs the handler of each callback on a goroutine of its own: the
    retry loop of a job runs beside later submissions, callbacks and polls,
    and beside the loops of other jobs.  A loop is cut at its calls to the
    store, to the webhook and to [time.Sleep], a call of
    [Manager.HandleCallback] at its calls to the store; between two cuts
    each is a task waiting at a program point.  A submission makes one call
    to the store and is one step; a poll only reads and is one step. *)
Module system.
Import store jobs api.

(** Program points of [triggerN8NWorkflow]; [attempt] is the loop variable. *)
Inductive PC :=
| AtIncrement (attempt : Z)                  (* before m.store.IncrementJobAttempts *)
| AtWebhook (attempt : Z)                    (* before m.n8nClient.TriggerWebhook *)
| AtMarkFailed (attempt : Z) (err : string)  (* before UpdateJobStatus(.., StatusFailed, ..) *)
| AtSleep (attempt : Z)                      (* before time.Sleep(delay) *)
| AtMarkProcessing (attempt : Z)             (* before UpdateJobStatus(.., StatusProcessing, nil) *)
| Returned.

Record Task := mkTask {
  task_jobID : string;
  task_payload : N8NPayload;
  task_pc : PC
}.

Definition set_pc (t : Task) (pc : PC) : Task :=
  {| task_jobID := task_jobID t; task_payload := task_payload t; task_pc := pc |}.

(** The loop condition [attempt <= maxAttempts]. *)
Definition loop_head (attempt : Z) : PC :=
  if (attempt <=? maxAttempts)%Z then AtIncrement attempt else Returned.

(** One step of a task.  [now] is the database clock and [fault] the answer
    of the engine, read by the steps that write; [reply] is the answer of
    the webhook, read at [AtWebhook]. *)
Definition task_step (now : Time) (reply fault : error) (t : Task) (s : Store)
    : Task * Store * list Event :=
  match task_pc t with
  | AtIncrement attempt =>
      let '(s1, _) := IncrementJobAttempts fault (task_jobID t) now s in
      (set_pc t (AtWebhook attempt), s1, [])
  | AtWebhook attempt =>
      let ev := [EvWebhook attempt (task_payload t)] in
      match reply with
      | Some err =>
          if (attempt =? maxAttempts)%Z
          then (set_pc t (AtMarkFailed attempt err), s, ev)
          else (set_pc t (AtSleep attempt), s, ev)
      | None => (set_pc t (AtMarkProcessing attempt), s, ev)
      end
  | AtMarkFailed attempt err =>
      let '(s1, _) :=
        UpdateJobStatus fault (task_jobID t) StatusFailed (Some (exhaustedMsg err))
          now s in
      (set_pc t Returned, s1, [])
  | AtSleep attempt =>
      (set_pc t (loop_head (attempt + 1)), s, [EvSleep (backoff attempt)])
  | AtMarkProcessing attempt =>
      let '(s1, _) :=
        UpdateJobStatus fault (task_jobID t) StatusProcessing None now s in
      (set_pc t Returned, s1, [])
  | Returned => (t, s, [])
  end.

(** The task a [go] statement creates. *)
Definition spawn (sp : Spawn) : Task :=
  {| task_jobID := spawn_jobID sp; task_payload := spawn_payload sp;
     task_pc := loop_head 1 |}.

(** Program points of a call of [Manager.HandleCallback]; the arguments
    are the local variables the rest of the call reads. *)
Inductive HPC :=
| AtGetJob                                  (* before m.store.GetJob *)
| AtCreateRingtone (filePath : string)      (* before m.store.CreateRingtone *)
| AtUpdateCompleted                         (* before UpdateJobStatus(.., StatusCompleted, nil) *)
| AtUpdateFailed (errorMessage : string)    (* before UpdateJobStatus(.., StatusFailed, ..) *)
| HReturned (err : error).

Record Handler := mkHandler {
  handler_req : CallbackRequest;
  handler_pc : HPC
}.

Definition set_hpc (h : Handler) (pc : HPC) : Handler :=
  {| handler_req := handler_req h; handler_pc := pc |}.

(** One step of a handler: the store call it waits at, and what the Go
    code does with the result up to the next store call or to its return.
    [now] is [time.Now()] at [AtCreateRingtone] and the database clock at
    the two updates. *)
Definition handler_step (now : Time) (fault : error) (h : Handler) (s : Store)
    : Handler * Store :=
  let req := handler_req h in
  match handler_pc h with
  | AtGetJob =>
      match GetJob (CallbackRequest_JobID req) s with
      | (s1, (_, Some err)) => (set_hpc h (HReturned (Some (wrapf "failed to get job" err))), s1)
      | (s1, (None, None)) => (set_hpc h (HReturned (Some "job not found")), s1)
      | (s1, (Some job, None)) =>
          if String.eqb (CallbackRequest_Status req) StatusCompleted then
            match CallbackRequest_FilePath req with
            | None =>
                (set_hpc h (HReturned (Some "file_path is required for completed status")),
                 s1)
            | Some filePath => (set_hpc h (AtCreateRingtone filePath), s1)
            end
          else if String.eqb (CallbackRequest_Status req) StatusFailed then
            let errorMessage :=
              match metadata_string (CallbackRequest_Metadata req) "error" with
              | Some msg => msg
              | None => "Job failed in n8n workflow"
              end in
            (set_hpc h (AtUpdateFailed errorMessage), s1)
          else
            (set_hpc h (HReturned (Some ("unknown callback status: " +:+
                                         CallbackRequest_Status req))), s1)
      end
  | AtCreateRingtone filePath =>
      let duration :=
        match metadata_float64 (CallbackRequest_Metadata req) "duration" with
        | Some d => Some (int_of_float64 d)
        | None => None
        end in
      let ringtone := {| Ringtone_ID := 0;
                         Ringtone_JobID := CallbackRequest_JobID req;
                         Ringtone_FileName := filePath;
                         Ringtone_FilePath := filePath;
                         Ringtone_Format := "mp3";
                         Ringtone_DurationSeconds := duration;
                         Ringtone_CreatedAt := now |} in
      match CreateRingtone fault ringtone s with
      | (s1, (_, Some err)) =>
          (set_hpc h (HReturned (Some (wrapf "failed to create ringtone record" err))), s1)
      | (s1, (_, None)) => (set_hpc h AtUpdateCompleted, s1)
      end
  | AtUpdateCompleted =>
      match UpdateJobStatus fault (CallbackRequest_JobID req) StatusCompleted None now s with
      | (s1, Some err) =>
          (set_hpc h (HReturned (Some (wrapf "failed to update job status" err))), s1)
      | (s1, None) => (set_hpc h (HReturned None), s1)
      end
  | AtUpdateFailed errorMessage =>
      match UpdateJobStatus fault (CallbackRequest_JobID req) StatusFailed
              (Some errorMessage) now s with
      | (s1, Some err) =>
          (set_hpc h (HReturned (Some (wrapf "failed to update job status" err))), s1)
      | (s1, None) => (set_hpc h (HReturned None), s1)
      end
  | HReturned _ => (h, s)
  end.

Record World := mkWorld {
  db : Store;
  tasks : list Task;
  handlers : list Handler;
  events : list Event
}.

(** What can happen next: a submission, the arrival of a callback, a poll,
    or the scheduler letting the retry loop [i] or the handler [i] take a
    step. *)
Inductive Action :=
| Submit (jobID : string) (now : Time) (fault : error) (body : option CreateJobRequest)
| Reconcile (req : CallbackRequest)
| Serve (i : nat) (now : Time) (fault : error)
| Poll (jobID : string)
| Advance (i : nat) (now : Time) (reply fault : error).

Section Steps.

Variable json_Marshal : N8NPayload -> string * error.

Definition step (a : Action) (w : World) : World :=
  match a with
  | Submit jobID now fault body =>
      let '(s1, _, spawned) :=
        handleCreateRingtone json_Marshal jobID now fault body (db w) in
      {| db := s1;
         tasks := tasks w ++ match spawned with Some sp => [spawn sp] | None => [] end;
         handlers := handlers w;
         events := events w |}
  | Reconcile req =>
      {| db := db w; tasks := tasks w;
         handlers := handlers w ++ [{| handler_req := req; handler_pc := AtGetJob |}];
         events := events w |}
  | Serve i now fault =>
      match handlers w !! i with
      | Some h =>
          let '(h', s1) := handler_step now fault h (db w) in
          {| db := s1; tasks := tasks w; handlers := <[i := h']> (handlers w);
             events := events w |}
      | None => w
      end
  | Poll jobID =>
      let '(s1, _) := GetJobStatus jobID (db w) in
      {| db := s1; tasks := tasks w; handlers := handlers w; events := events w |}
  | Advance i now reply fault =>
      match tasks w !! i with
      | Some t =>
          let '(t', s1, evs) := task_step now reply fault t (db w) in
          {| db := s1; tasks := <[i := t']> (tasks w); handlers := handlers w;
             events := events w ++ evs |}
      | None => w
      end
  end.

(** The actions of a schedule, taken from left to right. *)
Definition run (acts : list Action) (w : World) : World :=
  foldl (λ w a, step a w) w acts.

(** A freshly migrated database, no task and no handler. *)
Definition initial (fk : bool) : World :=
  {| db := {| jobs := ∅; ringtones := []; ringtones_seq := 0; foreign_keys := fk |};
     tasks := [];
     handlers := [];
     events := [] |}.

Definition reachable (w : World) : Prop :=
  ∃ fk acts, w = run acts (initial fk).

End Steps.

(** A task run alone until it returns, its inputs taken from the
    environment of the turn it is in. *)
Definition pc_attempt (pc : PC) : Z :=
  match pc with
  | AtIncrement a | AtWebhook a | AtMarkFailed a _ | AtSleep a
  | AtMarkProcessing a => a
  | Returned => 0
  end.

Definition pc_now (env : Z -> AttemptEnv) (pc : PC) : Time :=
  match pc with
  | AtIncrement a => at_increment (env a)
  | _ => at_update (env (pc_attempt pc))
  end.

Definition pc_fault (env : Z -> AttemptEnv) (pc : PC) : error :=
  match pc with
  | AtIncrement a => fault_increment (env a)
  | _ => fault_update (env (pc_attempt pc))
  end.

Fixpoint solo (fuel : nat) (env : Z -> AttemptEnv) (t : Task) (s : Store)
    : option (Store * list Event) :=
  match task_pc t with
  | Returned => Some (s, [])
  | pc =>
      match fuel with
      | O => None
      | S fuel' =>
          let '(t', s1, evs) :=
            task_step (pc_now env pc) (webhook (env (pc_attempt pc)))
              (pc_fault env pc) t s in
          match solo fuel' env t' s1 with
          | Some (s', evs') => Some (s', evs ++ evs')
          | None => None
          end
      end
  end.

(** A handler run alone until it returns. *)
Definition hpc_fault (fault_insert fault_status : error) (pc : HPC) : error :=
  match pc with
  | AtCreateRingtone _ => fault_insert
  | _ => fault_status
  end.

Fixpoint serve (fuel : nat) (now : Time) (fault_insert fault_status : error)
    (h : Handler) (s : Store) : option (Store * error) :=
  match handler_pc h with
  | HReturned err => Some (s, err)
  | pc =>
      match fuel with
      | O => None
      | S fuel' =>
          let '(h', s1) :=
            handler_step now (hpc_fault fault_insert fault_status pc) h s in
          serve fuel' now fault_insert fault_status h' s1
      end
  end.

End system.

(** ** Vocabulary of the properties *)
Module lifecycle.
Import store jobs api system.

(** The two terminal states of the life cycle. *)
Definition terminal (status : string) : Prop :=
  status = StatusCompleted ∨ status = StatusFailed.

(** A retry loop that has nothing left to write but [failed]: it has
    returned, or its last attempt has failed and it is about to say so. *)
Definition settled (pc : PC) : Prop :=
  match pc with
  | Returned | AtMarkFailed _ _ => True
  | _ => False
  end.

Definition loops_settled (jobID : string) (w : World) : Prop :=
  ∀ t, t ∈ tasks w → task_jobID t = jobID → settled (task_pc t).

(** What ties the two tables together in every state the orchestrator
    reaches: a record belongs to a job of the store, and a job in
    [completed] has one record at least. *)
Definition consistent (s : Store) : Prop :=
  (∀ r, r ∈ ringtones s → is_Some (jobs s !! Ringtone_JobID r)) ∧
  (∀ id j, jobs s !! id = Some j →
     Job_Status j = StatusCompleted → ringtones_of id s ≠ []).

(** What a handler that has passed [GetJob] relies on: its job is in the
    store, and has a record once the handler has inserted one. *)
Definition handler_ok (s : Store) (h : Handler) : Prop :=
  match handler_pc h with
  | AtGetJob | HReturned _ => True
  | AtCreateRingtone _ | AtUpdateFailed _ =>
      is_Some (jobs s !! CallbackRequest_JobID (handler_req h))
  | AtUpdateCompleted =>
      is_Some (jobs s !! CallbackRequest_JobID (handler_req h)) ∧
      ringtones_of (CallbackRequest_JobID (handler_req h)) s ≠ []
  end.

(** The invariant of the two tables and of the handlers at work. *)
Definition sound (w : World) : Prop :=
  consistent (db w) ∧ ∀ h, h ∈ handlers w → handler_ok (db w) h.

(** The record a completion report inserts. *)
Definition record_of (s : Store) (id filePath : string) (duration : option Z)
    (now : Time) : Ringtone :=
  {| Ringtone_ID := ringtones_seq s + 1;
     Ringtone_JobID := id;
     Ringtone_FileName := filePath;
     Ringtone_FilePath := filePath;
     Ringtone_Format := "mp3";
     Ringtone_DurationSeconds := duration;
     Ringtone_CreatedAt := now |}.

(** The writes the orchestrator ever makes to the store, one per
    constructor: none (a read, a refused statement, a rejected request),
    the row of a new job, a counted attempt, a status with its message,
    and the record of a completion report. *)
Inductive write (s : Store) : Store → Prop :=
| write_nothing : write s s
| write_job (id : string) (row : Job) :
    jobs s !! id = None →
    Job_ID row = id →
    Job_Status row = StatusQueued →
    Job_Attempts row = 0 →
    Job_ErrorMessage row = None →
    write s (set_jobs s (<[id := row]> (jobs s)))
| write_attempt (id : string) (now : Time) :
    write s (set_jobs s (alter (with_attempt now) id (jobs s)))
| write_status (id status : string) (msg : option string) (now : Time) :
    (status = StatusProcessing ∧ msg = None) ∨
    (status = StatusCompleted ∧ msg = None) ∨
    (status = StatusFailed ∧ is_Some msg) →
    write s (set_jobs s (alter (with_status status msg now) id (jobs s)))
| write_record (id filePath : string) (duration : option Z) (now : Time) :
    write s {| jobs := jobs s;
               ringtones := ringtones s ++ [record_of s id filePath duration now];
               ringtones_seq := ringtones_seq s + 1;
               foreign_keys := foreign_keys s |}.

(** What a write makes of a row: the update when the engine executes the
    statement, the row as it was when it refuses it. *)
Definition applied (fault : error) (f : Job → Job) (j : Job) : Job :=
  match fault with None => f j | Some _ => j end.

(** The number an increment adds to the counter of attempts: one when the
    engine executes it, none when it refuses it. *)
Definition landed (fault : error) : Z :=
  match fault with None => 1 | Some _ => 0 end.

End lifecycle.

(** ** Concrete runs

    The inputs of the scenarios of the specification: one job, submitted at
    time 10 with the source [https://example.com/v1] and default options,
    and the reports the worker may send about it. *)
Module scenario.
Import store jobs api system.

(** An encoder that always succeeds; the text it produces is kept in the
    row and plays no part in the life cycle. *)
Definition encoder (p : N8NPayload) : string * error := ("{}", None).

(** The refusal of an engine whose database another writer holds. *)
Definition locked : error := Some "database is locked (5) (SQLITE_BUSY)".

Definition request : CreateJobRequest :=
  {| CreateJobRequest_SourceURL := "https://example.com/v1";
     CreateJobRequest_UserID := None;
     CreateJobRequest_Options := None |}.

Definition request_empty : CreateJobRequest :=
  {| CreateJobRequest_SourceURL := "";
     CreateJobRequest_UserID := None;
     CreateJobRequest_Options := None |}.

Definition report_completed : CallbackRequest :=
  {| CallbackRequest_JobID := "job1";
     CallbackRequest_Status := "completed";
     CallbackRequest_FilePath := Some "job1.mp3";
     CallbackRequest_Metadata := Some {[ "duration" := JNumber (30 # 1) ]} |}.

Definition report_wav : CallbackRequest :=
  {| CallbackRequest_JobID := "job1";
     CallbackRequest_Status := "completed";
     CallbackRequest_FilePath := Some "job1.wav";
     CallbackRequest_Metadata := None |}.

Definition report_no_file : CallbackRequest :=
  {| CallbackRequest_JobID := "job1";
     CallbackRequest_Status := "completed";
     CallbackRequest_FilePath := None;
     CallbackRequest_Metadata := None |}.

Definition report_failed : CallbackRequest :=
  {| CallbackRequest_JobID := "job1";
     CallbackRequest_Status := "failed";
     CallbackRequest_FilePath := None;
     CallbackRequest_Metadata := Some {[ "error" := JString "download failed" ]} |}.

Definition payload : N8NPayload :=
  {| payload_job_id := "job1";
     payload_source_url := "https://example.com/v1";
     payload_options := {| JobOptions_StartSeconds := None;
                           JobOptions_DurationSeconds := None;
                           JobOptions_FadeIn := false;
                           JobOptions_FadeOut := false;
                           JobOptions_Format := "mp3" |};
     payload_callback_url := "http://backend:8080/api/v1/n8n-callback" |}.

(** The row of the job at its successive stages. *)
Definition job_at (status : string) (updated : Time) (attempts : Z)
    (msg : option string) : Job :=
  {| Job_ID := "job1";
     Job_SourceURL := "https://example.com/v1";
     Job_UserID := None;
     Job_Status := status;
     Job_CreatedAt := 10;
     Job_UpdatedAt := updated;
     Job_Attempts := attempts;
     Job_N8NPayload := Some "{}";
     Job_ErrorMessage := msg |}.

Definition job_queued : Job := job_at StatusQueued 10 0 None.
Definition job_processing : Job := job_at StatusProcessing 13 1 None.
Definition job_completed : Job := job_at StatusCompleted 20 1 None.

Definition ringtone_first : Ringtone :=
  {| Ringtone_ID := 1;
     Ringtone_JobID := "job1";
     Ringtone_FileName := "job1.mp3";
     Ringtone_FilePath := "job1.mp3";
     Ringtone_Format := "mp3";
     Ringtone_DurationSeconds := Some 30;
     Ringtone_CreatedAt := 20 |}.

Definition store_empty : Store :=
  {| jobs := ∅; ringtones := []; ringtones_seq := 0; foreign_keys := true |}.

Definition store_queued : Store :=
  {| jobs := {[ "job1" := job_queued ]}; ringtones := [];
     ringtones_seq := 0; foreign_keys := true |}.

Definition store_processing : Store :=
  {| jobs := {[ "job1" := job_processing ]}; ringtones := [];
     ringtones_seq := 0; foreign_keys := true |}.

Definition store_completed : Store :=
  {| jobs := {[ "job1" := job_completed ]}; ringtones := [ringtone_first];
     ringtones_seq := 1; foreign_keys := true |}.

(** A webhook that never answers, an engine that executes every
    statement, and clock readings 11, 12, ... *)
Definition env_down (attempt : Z) : AttemptEnv :=
  {| at_increment := 10 + attempt;
     fault_increment := None;
     webhook := Some "failed to send request: connection refused";
     at_update := 10 + attempt;
     fault_update := None |}.


(** Submission, then the first attempt accepted by the worker. *)
Definition dispatched : list Action :=
  [Submit "job1" 10 None (Some request);
   Advance 0 11 None None; Advance 0 12 None None; Advance 0 13 None None].

(** The report [req] arriving as callback number [i] and served to its
    end at time [now], every statement executed: the read of the job and
    the writes, two for a completion and one for a failure. *)
Definition delivered (i : nat) (req : CallbackRequest) (now : Time) : list Action :=
  [Reconcile req; Serve i now None; Serve i now None; Serve i now None].

(** Scenario D: the same completion report delivered twice. *)
Definition delivered_twice : list Action :=
  dispatched ++ delivered 0 report_completed 20 ++ delivered 1 report_completed 21.


(** The report of the worker overtaking the retry loop: the webhook has
    answered, the loop has not written [processing] yet. *)
Definition overtaken : list Action :=
  [Submit "job1" 10 None (Some request);
   Advance 0 11 None None; Advance 0 12 None None]
  ++ delivered 0 report_completed 20.


End scenario.

(** ** Vocabulary of the properties of the whole system *)
Module bookkeeping.
Import store jobs api system.

(** The calls of the webhook in a trace, and the time slept. *)
Definition webhook_calls (evs : list Event) : list Z :=
  omap (λ ev, match ev with EvWebhook attempt _ => Some attempt | EvSleep _ => None end) evs.

Definition total_sleep (evs : list Event) : Duration :=
  foldr (λ ev acc, match ev with EvSleep d => d + acc | EvWebhook _ _ => acc end) 0 evs.

(** The trace of a loop whose [k]-th call is its last: a call and a sleep
    for each of the turns before, then the call of turn [k]. *)
Definition trace_until (k : Z) (payload : N8NPayload) : list Event :=
  flat_map (λ i, [EvWebhook i payload; EvSleep (backoff i)]) (seqZ 1 (k - 1))
    ++ [EvWebhook k payload].

(** The four statuses of the life cycle. *)
Definition known_status (status : string) : Prop :=
  status ∈ [StatusQueued; StatusProcessing; StatusCompleted; StatusFailed].

(** The records are numbered 1, 2, ... in the order of their insertion. *)
Definition numbered (s : Store) : Prop :=
  ringtones_seq s = Z.of_nat (length (ringtones s)) ∧
  ∀ i r, ringtones s !! i = Some r → Ringtone_ID r = Z.of_nat i + 1.

(** What the row of a job shows while its retry loop waits at a program
    point: no more attempts than the loop has made increments, each of
    which the engine may have refused. *)
Definition counted (pc : PC) (j : Job) : Prop :=
  (0 ≤ Job_Attempts j)%Z ∧
  match pc with
  | AtIncrement a => (1 ≤ a ≤ maxAttempts)%Z ∧ (Job_Attempts j ≤ a - 1)%Z
  | AtWebhook a => (1 ≤ a ≤ maxAttempts)%Z ∧ (Job_Attempts j ≤ a)%Z
  | AtMarkFailed a _ => a = maxAttempts ∧ (Job_Attempts j ≤ a)%Z
  | AtSleep a => (1 ≤ a < maxAttempts)%Z ∧ (Job_Attempts j ≤ a)%Z
  | AtMarkProcessing a => (1 ≤ a ≤ maxAttempts)%Z ∧ (Job_Attempts j ≤ a)%Z
  | Returned => (Job_Attempts j ≤ maxAttempts)%Z
  end.

(** Every job has its retry loop, and one only. *)
Definition scheduled (w : World) : Prop :=
  NoDup (task_jobID <$> tasks w) ∧
  (∀ t, t ∈ tasks w →
     ∃ j, jobs (db w) !! task_jobID t = Some j ∧ counted (task_pc t) j) ∧
  (∀ id, is_Some (jobs (db w) !! id) → ∃ t, t ∈ tasks w ∧ task_jobID t = id).

(** What the row of a job keeps from one state to a later one: all but
    its status, update time and error message, the counter of attempts
    never getting smaller. *)
Definition kept (j j' : Job) : Prop :=
  Job_ID j' = Job_ID j ∧
  Job_SourceURL j' = Job_SourceURL j ∧
  Job_UserID j' = Job_UserID j ∧
  Job_CreatedAt j' = Job_CreatedAt j ∧
  Job_N8NPayload j' = Job_N8NPayload j ∧
  (Job_Attempts j ≤ Job_Attempts j')%Z.

(** The rows of a reachable store: the key is the id of the row, the
    status is one of the four, and an error message is there exactly for a
    failed job. *)
Definition well_formed_job (id : string) (j : Job) : Prop :=
  Job_ID j = id ∧
  known_status (Job_Status j) ∧
  (is_Some (Job_ErrorMessage j) ↔ Job_Status j = StatusFailed).

End bookkeeping.
(** * Properties *)

Import store jobs api system lifecycle scenario.

(** ** Backoff arithmetic *)

Lemma wrap64_small (z : Z) : - 2 ^ 63 <= z < 2 ^ 63 → wrap64 z = z.
Proof. intros H. unfold wrap64. rewrite Z.mod_small; lia. Qed.

(** Up to attempt 34 the product fits in an [int64]. *)
Lemma backoff_exact (k : Z) : 1 <= k <= 34 → backoff k = baseDelay * 2 ^ (k - 1).
Proof.
  intros Hk. unfold backoff, baseDelay.
  rewrite Z.shiftl_1_l.
  assert (H0 : 0 < 2 ^ (k - 1)) by (apply Z.pow_pos_nonneg; lia).
  assert (H1 : 2 ^ (k - 1) <= 2 ^ 33) by (apply Z.pow_le_mono_r; lia).
  change (2 ^ 33) with 8589934592 in H1.
  rewrite (wrap64_small (2 ^ (k - 1))) by lia.
  apply wrap64_small. lia.
Qed.

Lemma backoff_increasing (k k' : Z) :
  1 <= k < k' → k' <= 34 → backoff k < backoff k'.
Proof.
  intros Hk Hk'. rewrite !backoff_exact by lia. unfold baseDelay.
  assert (2 ^ (k - 1) < 2 ^ (k' - 1)) by (apply Z.pow_lt_mono_r; lia). lia.
Qed.

(** The product wraps once the shift is large enough. *)
Example backoff_wraps : backoff 35 < 0.
Proof. reflexivity. Qed.

(** ** The store: what each statement leaves behind *)

Lemma UpdateJobStatus_lookup fault id status msg now s :
  jobs (UpdateJobStatus fault id status msg now s).1 !! id =
    applied fault (with_status status msg now) <$> jobs s !! id.
Proof.
  destruct fault; cbn; [by destruct (jobs s !! id)|apply lookup_alter_eq].
Qed.

Lemma UpdateJobStatus_lookup_ne fault id id' status msg now s :
  id ≠ id' →
  jobs (UpdateJobStatus fault id status msg now s).1 !! id' = jobs s !! id'.
Proof. intros Hne. destruct fault; cbn; [done|by apply lookup_alter_ne]. Qed.

Lemma UpdateJobStatus_ringtones fault id status msg now s :
  ringtones (UpdateJobStatus fault id status msg now s).1 = ringtones s.
Proof. by destruct fault. Qed.

Lemma IncrementJobAttempts_lookup fault id now s :
  jobs (IncrementJobAttempts fault id now s).1 !! id =
    applied fault (with_attempt now) <$> jobs s !! id.
Proof.
  destruct fault; cbn; [by destruct (jobs s !! id)|apply lookup_alter_eq].
Qed.

Lemma IncrementJobAttempts_lookup_ne fault id id' now s :
  id ≠ id' → jobs (IncrementJobAttempts fault id now s).1 !! id' = jobs s !! id'.
Proof. intros Hne. destruct fault; cbn; [done|by apply lookup_alter_ne]. Qed.

Lemma IncrementJobAttempts_ringtones fault id now s :
  ringtones (IncrementJobAttempts fault id now s).1 = ringtones s.
Proof. by destruct fault. Qed.

Lemma applied_attempts fault now j :
  Job_Attempts (applied fault (with_attempt now) j) = Job_Attempts j + landed fault.
Proof. destruct fault; cbn; lia. Qed.



(** ** The retry loop, one turn at a time *)

Section Turns.
Variables (jobID : string) (payload : N8NPayload) (env : Z → AttemptEnv).

Lemma retry_from_accepted fuel attempt s :
  attempt <= maxAttempts → webhook (env attempt) = None →
  retry_from (S fuel) attempt jobID payload env s =
    Some ((UpdateJobStatus (fault_update (env attempt)) jobID StatusProcessing None
             (at_update (env attempt))
             (IncrementJobAttempts (fault_increment (env attempt)) jobID
                (at_increment (env attempt)) s).1).1,
          [EvWebhook attempt payload]).
Proof.
  intros Hle Hw. cbn [retry_from].
  destruct (Z.leb_spec attempt maxAttempts); [|lia].
  rewrite Hw. destruct (IncrementJobAttempts _ _ _ _) as [s1 e1]. cbn [fst].
  by destruct (UpdateJobStatus _ _ _ _ _ _).
Qed.

Lemma retry_from_exhausted fuel s err :
  webhook (env maxAttempts) = Some err →
  retry_from (S fuel) maxAttempts jobID payload env s =
    Some ((UpdateJobStatus (fault_update (env maxAttempts)) jobID StatusFailed
             (Some (exhaustedMsg err)) (at_update (env maxAttempts))
             (IncrementJobAttempts (fault_increment (env maxAttempts)) jobID
                (at_increment (env maxAttempts)) s).1).1,
          [EvWebhook maxAttempts payload]).
Proof.
  intros Hw. cbn [retry_from]. rewrite Z.leb_refl, Z.eqb_refl, Hw.
  destruct (IncrementJobAttempts _ _ _ _) as [s1 e1]. cbn [fst].
  by destruct (UpdateJobStatus _ _ _ _ _ _).
Qed.

Lemma retry_from_backoff fuel attempt s err :
  attempt < maxAttempts → webhook (env attempt) = Some err →
  retry_from (S fuel) attempt jobID payload env s =
    match retry_from fuel (attempt + 1) jobID payload env
            (IncrementJobAttempts (fault_increment (env attempt)) jobID
               (at_increment (env attempt)) s).1 with
    | Some (s', evs) =>
        Some (s', EvWebhook attempt payload :: EvSleep (backoff attempt) :: evs)
    | None => None
    end.
Proof.
  intros Hlt Hw. cbn [retry_from].
  destruct (Z.leb_spec attempt maxAttempts); [|lia].
  destruct (Z.eqb_spec attempt maxAttempts); [lia|].
  rewrite Hw. by destruct (IncrementJobAttempts _ _ _ _) as [s1 e1].
Qed.
End Turns.

(** One turn of the loop, by whichever equation applies. *)
Ltac turn :=
  first
    [ erewrite retry_from_backoff by (done || (unfold maxAttempts; lia))
    | erewrite retry_from_exhausted by done
    | erewrite retry_from_accepted by (done || (unfold maxAttempts; lia)) ];
  try change (1 + 1) with 2; try change (2 + 1) with maxAttempts.

(** The loop always returns: three turns are enough. *)
Lemma triggerN8NWorkflow_returns jobID payload env s :
  is_Some (triggerN8NWorkflow jobID payload env s).
Proof.
  unfold triggerN8NWorkflow. change (Z.to_nat maxAttempts) with 3%nat.
  destruct (webhook (env 1)) eqn:H1; [|turn; eauto].
  destruct (webhook (env 2)) eqn:H2; [|do 2 turn; eauto].
  change 3 with maxAttempts in *.
  destruct (webhook (env maxAttempts)) eqn:H3; do 3 turn; eauto.
Qed.




(** C5. After a failed attempt k that is not the last one, the loop waits
    [baseDelay * 2^(k-1)] and then makes attempt k+1; the wait grows
    strictly with k. *)
Theorem backoff_between_attempts (jobID : string) (payload : N8NPayload)
    (env : Z → AttemptEnv) (s : Store) (k : Z) :
  1 <= k < maxAttempts →
  (∀ i, 1 <= i <= k → webhook (env i) ≠ None) →
  backoff k = baseDelay * 2 ^ (k - 1) ∧
  (∃ s' pre post,
     triggerN8NWorkflow jobID payload env s =
       Some (s', pre ++ [EvWebhook k payload;
                         EvSleep (baseDelay * 2 ^ (k - 1));
                         EvWebhook (k + 1) payload] ++ post)) ∧
  (∀ k', k < k' < maxAttempts → backoff k < backoff k').
Proof.
  intros Hk Hfail. split; [|split].
  - apply backoff_exact. unfold maxAttempts in Hk. lia.
  - rewrite <- backoff_exact by (unfold maxAttempts in Hk; lia).
    unfold triggerN8NWorkflow. change (Z.to_nat maxAttempts) with 3%nat.
    destruct (webhook (env 1)) as [e1|] eqn:H1;
      [|destruct (Hfail 1); [lia|done]].
    assert (Hcase : k = 1 ∨ k = 2) by (unfold maxAttempts in Hk; lia).
    destruct Hcase as [-> | ->].
    + destruct (webhook (env 2)) as [e2|] eqn:H2.
      * change 3 with maxAttempts in *.
        destruct (webhook (env maxAttempts)) eqn:H3; do 3 turn;
          eexists _, [], _; reflexivity.
      * do 2 turn. eexists _, [], []. reflexivity.
    + destruct (webhook (env 2)) as [e2|] eqn:H2;
        [|destruct (Hfail 2); [lia|done]].
      change 3 with maxAttempts in *.
      destruct (webhook (env maxAttempts)) eqn:H3; do 3 turn;
        eexists _, [_; _], []; reflexivity.
  - intros k' Hk'. apply backoff_increasing; unfold maxAttempts in *; lia.
Qed.

(** The wait after the first failure of the scenario is one second, the
    next one is longer. *)
Lemma backoff_between_attempts_witness :
  1 <= 1 < maxAttempts ∧
  (∀ i, 1 <= i <= 1 → webhook (env_down i) ≠ None) ∧
  backoff 1 = 1000000000 ∧
  (∃ s' pre post,
     triggerN8NWorkflow "job1" payload env_down store_queued =
       Some (s', pre ++ [EvWebhook 1 payload; EvSleep 1000000000;
                         EvWebhook 2 payload] ++ post)) ∧
  (∀ k', 1 < k' < maxAttempts → backoff 1 < backoff k').
Proof.
  assert (H1 : 1 <= 1 < maxAttempts) by (unfold maxAttempts; lia).
  assert (H2 : ∀ i, 1 <= i <= 1 → webhook (env_down i) ≠ None)
    by (intros i _; discriminate).
  split; [exact H1|]. split; [exact H2|].
  exact (backoff_between_attempts "job1" payload env_down store_queued 1 H1 H2).
Defined.

(** ** Submission *)

(** The manager itself accepts any source reference: the check is made by
    the handler in front of it. *)
Example CreateJob_does_not_validate :
  (CreateJob encoder "job1" 10 None request_empty store_empty).1.2.2 = None.
Proof. reflexivity. Qed.

(** C7. A submission whose source reference is empty, or does not start with
    [http://] or [https://], is answered with status 400; the store is as it
    was and no retry loop is launched. *)
Theorem handleCreateRingtone_rejects_malformed
    (json_Marshal : N8NPayload → string * error)
    (jobID : string) (now : Time) (fault : error) (req : CreateJobRequest)
    (s : Store) :
  CreateJobRequest_SourceURL req = "" ∨
    isValidURL (CreateJobRequest_SourceURL req) = false →
  ∃ message code,
    handleCreateRingtone json_Marshal jobID now fault (Some req) s =
      (s, writeError message code StatusBadRequest, None).
Proof.
  intros Hbad. unfold handleCreateRingtone.
  destruct (String.eqb_spec (CreateJobRequest_SourceURL req) "") as [Hempty|Hne].
  - eauto.
  - destruct Hbad as [Hbad|Hbad]; [done|]. rewrite Hbad. simpl. eauto.
Qed.

(** The empty source reference, sent to a store that holds the job of the
    scenario. *)
Lemma handleCreateRingtone_rejects_malformed_witness :
  (CreateJobRequest_SourceURL request_empty = "" ∨
     isValidURL (CreateJobRequest_SourceURL request_empty) = false) ∧
  ∃ message code,
    handleCreateRingtone encoder "job2" 30 None (Some request_empty) store_queued =
      (store_queued, writeError message code StatusBadRequest, None).
Proof.
  assert (H : CreateJobRequest_SourceURL request_empty = "" ∨
              isValidURL (CreateJobRequest_SourceURL request_empty) = false)
    by (left; reflexivity).
  split; [exact H|].
  exact (handleCreateRingtone_rejects_malformed encoder "job2" 30 None request_empty
           store_queued H).
Defined.

Example isValidURL_examples :
  isValidURL "HTTPS://Example.com/v1" = true ∧
  isValidURL "ftp://example.com/v1" = false ∧
  isValidURL "" = false.
Proof. by repeat split. Qed.

(** ** Reconciliation *)

(** A [completed] report with a file path on an existing job, the engine
    executing both writes: one record is appended and the row is
    rewritten. *)
Lemma HandleCallback_completed (req : CallbackRequest) (now : Time) (s : Store)
    (j : Job) (fp : string) :
  jobs s !! CallbackRequest_JobID req = Some j →
  CallbackRequest_Status req = StatusCompleted →
  CallbackRequest_FilePath req = Some fp →
  HandleCallback req now None None s =
    ({| jobs := <[CallbackRequest_JobID req := with_status StatusCompleted None now j]> (jobs s);
        ringtones := ringtones s ++
          [record_of s (CallbackRequest_JobID req) fp
             (int_of_float64 <$> metadata_float64 (CallbackRequest_Metadata req) "duration")
             now];
        ringtones_seq := ringtones_seq s + 1;
        foreign_keys := foreign_keys s |}, None).
Proof.
  intros Hj Hst Hfp. unfold HandleCallback, GetJob, handleCompletedCallback.
  rewrite Hj, Hst, Hfp. cbn -[metadata_float64].
  unfold CreateRingtone. cbn [Ringtone_JobID]. rewrite Hj.
  rewrite bool_decide_eq_true_2 by eauto. rewrite andb_false_r.
  unfold UpdateJobStatus, set_jobs, record_of. cbn -[metadata_float64].
  do 2 f_equal. apply map_eq. intros i.
  destruct (decide (i = CallbackRequest_JobID req)) as [->|Hne].
  - by rewrite lookup_alter_eq, lookup_insert_eq, Hj.
  - by rewrite lookup_alter_ne, lookup_insert_ne.
Qed.

(** The same report when the engine executes the INSERT and refuses the
    UPDATE: the record is there, the row is as it was, and the call
    returns the error. *)
Lemma HandleCallback_half (req : CallbackRequest) (now : Time) (s : Store)
    (j : Job) (fp msg : string) :
  jobs s !! CallbackRequest_JobID req = Some j →
  CallbackRequest_Status req = StatusCompleted →
  CallbackRequest_FilePath req = Some fp →
  HandleCallback req now None (Some msg) s =
    ({| jobs := jobs s;
        ringtones := ringtones s ++
          [record_of s (CallbackRequest_JobID req) fp
             (int_of_float64 <$> metadata_float64 (CallbackRequest_Metadata req) "duration")
             now];
        ringtones_seq := ringtones_seq s + 1;
        foreign_keys := foreign_keys s |},
     Some (wrapf "failed to update job status" (wrapf "failed to update job status" msg))).
Proof.
  intros Hj Hst Hfp. unfold HandleCallback, GetJob, handleCompletedCallback.
  rewrite Hj, Hst, Hfp. cbn -[metadata_float64].
  unfold CreateRingtone. cbn [Ringtone_JobID]. rewrite Hj.
  rewrite bool_decide_eq_true_2 by eauto. rewrite andb_false_r.
  reflexivity.
Qed.

(** The same report when the engine refuses the INSERT: nothing is
    written. *)
Lemma HandleCallback_insert_refused (req : CallbackRequest) (now : Time) (s : Store)
    (j : Job) (fp msg : string) (fault_status : error) :
  jobs s !! CallbackRequest_JobID req = Some j →
  CallbackRequest_Status req = StatusCompleted →
  CallbackRequest_FilePath req = Some fp →
  HandleCallback req now (Some msg) fault_status s =
    (s, Some (wrapf "failed to create ringtone record"
                (wrapf "failed to create ringtone" msg))).
Proof.
  intros Hj Hst Hfp. unfold HandleCallback, GetJob, handleCompletedCallback.
  by rewrite Hj, Hst, Hfp.
Qed.

(** A [failed] report on an existing job, the engine executing the write:
    the row is rewritten with the message of the report, or the generic
    one. *)
Lemma HandleCallback_failed (req : CallbackRequest) (now : Time) (s : Store)
    (j : Job) (fault_insert : error) :
  jobs s !! CallbackRequest_JobID req = Some j →
  CallbackRequest_Status req = StatusFailed →
  HandleCallback req now fault_insert None s =
    (set_jobs s
       (<[CallbackRequest_JobID req :=
            with_status StatusFailed
              (Some (default "Job failed in n8n workflow"
                       (metadata_string (CallbackRequest_Metadata req) "error")))
              now j]> (jobs s)),
     None).
Proof.
  intros Hj Hst. unfold HandleCallback, GetJob, handleFailedCallback.
  rewrite Hj, Hst. cbn -[metadata_string].
  unfold UpdateJobStatus. do 2 f_equal. apply map_eq. intros i.
  destruct (decide (i = CallbackRequest_JobID req)) as [->|Hne].
  - rewrite lookup_alter_eq, lookup_insert_eq, Hj.
    by destruct (metadata_string _ _).
  - by rewrite lookup_alter_ne, lookup_insert_ne.
Qed.

Lemma HandleCallback_failed_refused (req : CallbackRequest) (now : Time) (s : Store)
    (j : Job) (fault_insert : error) (msg : string) :
  jobs s !! CallbackRequest_JobID req = Some j →
  CallbackRequest_Status req = StatusFailed →
  HandleCallback req now fault_insert (Some msg) s =
    (s, Some (wrapf "failed to update job status"
                (wrapf "failed to update job status" msg))).
Proof.
  intros Hj Hst. unfold HandleCallback, GetJob, handleFailedCallback.
  by rewrite Hj, Hst.
Qed.

(** The refusals of the manager leave the store untouched. *)
Lemma HandleCallback_unknown_job req now fault_insert fault_status s :
  jobs s !! CallbackRequest_JobID req = None →
  HandleCallback req now fault_insert fault_status s = (s, Some "job not found").
Proof. intros Hj. unfold HandleCallback, GetJob. by rewrite Hj. Qed.

Lemma HandleCallback_no_file_path req now fault_insert fault_status s j :
  jobs s !! CallbackRequest_JobID req = Some j →
  CallbackRequest_Status req = StatusCompleted →
  CallbackRequest_FilePath req = None →
  HandleCallback req now fault_insert fault_status s =
    (s, Some "file_path is required for completed status").
Proof.
  intros Hj Hst Hfp. unfold HandleCallback, GetJob, handleCompletedCallback.
  by rewrite Hj, Hst, Hfp.
Qed.

Lemma HandleCallback_unknown_status req now fault_insert fault_status s j :
  jobs s !! CallbackRequest_JobID req = Some j →
  CallbackRequest_Status req ≠ StatusCompleted →
  CallbackRequest_Status req ≠ StatusFailed →
  HandleCallback req now fault_insert fault_status s =
    (s, Some ("unknown callback status: " +:+ CallbackRequest_Status req)).
Proof.
  intros Hj Hc Hf. unfold HandleCallback, GetJob. rewrite Hj.
  destruct (String.eqb_spec (CallbackRequest_Status req) StatusCompleted); [done|].
  by destruct (String.eqb_spec (CallbackRequest_Status req) StatusFailed).
Qed.

(** C8. A [completed] report without [file_path] is refused with an error,
    and the store (job rows and result records) is left as it was; for a job
    that exists the error is the missing-field one. *)
Theorem HandleCallback_completed_requires_file_path (req : CallbackRequest)
    (now : Time) (fault_insert fault_status : error) (s : Store) :
  CallbackRequest_Status req = StatusCompleted →
  CallbackRequest_FilePath req = None →
  (∃ msg, HandleCallback req now fault_insert fault_status s = (s, Some msg)) ∧
  (is_Some (jobs s !! CallbackRequest_JobID req) →
   HandleCallback req now fault_insert fault_status s =
     (s, Some "file_path is required for completed status")).
Proof.
  intros Hst Hfp.
  destruct (jobs s !! CallbackRequest_JobID req) as [j|] eqn:Hj.
  - rewrite (HandleCallback_no_file_path req now _ _ s j) by done. eauto.
  - rewrite HandleCallback_unknown_job by done. split; [eauto|].
    by intros [? ?].
Qed.

(** Scenario E: the report without a file, for the job in [processing]. *)
Lemma HandleCallback_completed_requires_file_path_witness :
  CallbackRequest_Status report_no_file = StatusCompleted ∧
  CallbackRequest_FilePath report_no_file = None ∧
  is_Some (jobs store_processing !! CallbackRequest_JobID report_no_file) ∧
  HandleCallback report_no_file 20 None None store_processing =
    (store_processing, Some "file_path is required for completed status").
Proof.
  assert (H1 : CallbackRequest_Status report_no_file = StatusCompleted)
    by reflexivity.
  assert (H2 : CallbackRequest_FilePath report_no_file = None) by reflexivity.
  assert (H3 : is_Some (jobs store_processing !! CallbackRequest_JobID report_no_file))
    by (exists job_processing; reflexivity).
  split; [exact H1|]. split; [exact H2|]. split; [exact H3|].
  exact (proj2 (HandleCallback_completed_requires_file_path report_no_file 20
                  None None store_processing H1 H2) H3).
Defined.

(** C10. The record a [completed] report creates has the format [mp3],
    whatever the file name reported and whatever format the job asked for:
    the report creates it when the engine executes the INSERT, and the call
    succeeds when the engine executes the status write as well. *)
Theorem completed_record_format_is_mp3 (req : CallbackRequest) (now : Time)
    (fault_insert fault_status : error) (s : Store) (fp : string) :
  is_Some (jobs s !! CallbackRequest_JobID req) →
  CallbackRequest_Status req = StatusCompleted →
  CallbackRequest_FilePath req = Some fp →
  fault_insert = None →
  ∃ s' r,
    (HandleCallback req now fault_insert fault_status s).1 = s' ∧
    (fault_status = None →
     HandleCallback req now fault_insert fault_status s = (s', None)) ∧
    ringtones s' = ringtones s ++ [r] ∧
    Ringtone_JobID r = CallbackRequest_JobID req ∧
    Ringtone_FileName r = fp ∧
    Ringtone_Format r = "mp3".
Proof.
  intros [j Hj] Hst Hfp ->. destruct fault_status as [msg|].
  - rewrite (HandleCallback_half req now s j fp msg) by done.
    eexists _, _. split; [reflexivity|]. split; [done|]. cbn. eauto.
  - rewrite (HandleCallback_completed req now s j fp) by done.
    eexists _, _. split; [reflexivity|]. split; [done|]. cbn. eauto.
Qed.

(** A report naming a [.wav] file still yields a record of format [mp3]. *)
Lemma completed_record_format_is_mp3_witness :
  is_Some (jobs store_processing !! CallbackRequest_JobID report_wav) ∧
  CallbackRequest_Status report_wav = StatusCompleted ∧
  CallbackRequest_FilePath report_wav = Some "job1.wav" ∧
  ∃ s' r,
    HandleCallback report_wav 20 None None store_processing = (s', None) ∧
    ringtones s' = ringtones store_processing ++ [r] ∧
    Ringtone_JobID r = CallbackRequest_JobID report_wav ∧
    Ringtone_FileName r = "job1.wav" ∧
    Ringtone_Format r = "mp3".
Proof.
  assert (H1 : is_Some (jobs store_processing !! CallbackRequest_JobID report_wav))
    by (exists job_processing; reflexivity).
  assert (H2 : CallbackRequest_Status report_wav = StatusCompleted) by reflexivity.
  assert (H3 : CallbackRequest_FilePath report_wav = Some "job1.wav") by reflexivity.
  split; [exact H1|]. split; [exact H2|]. split; [exact H3|].
  destruct (completed_record_format_is_mp3 report_wav 20 None None store_processing
              "job1.wav" H1 H2 H3 eq_refl) as (s' & r & _ & E & Er).
  exists s', r. split; [exact (E eq_refl)|exact Er].
Defined.

(** Scenario B, step by step: the stores of the scenario are the ones the
    orchestrator builds. *)
Example scenario_stores :
  db (run encoder [Submit "job1" 10 None (Some request)] (initial true)) = store_queued ∧
  db (run encoder dispatched (initial true)) = store_processing ∧
  db (run encoder (dispatched ++ delivered 0 report_completed 20) (initial true)) =
    store_completed.
Proof. repeat split; vm_compute; reflexivity. Qed.

(** C1 does not hold as stated: the job of the scenario is [completed] with
    one record; the completion report delivered once more is accepted,
    changes the row and leaves two records.  Delivered twice to the job in
    [processing] it leaves two records as well. *)
Lemma duplicate_report_is_not_a_noop :
  jobs store_completed !! "job1" = Some job_completed ∧
  terminal (Job_Status job_completed) ∧
  length (ringtones_of "job1" store_completed) = 1%nat ∧
  (HandleCallback report_completed 21 None None store_completed).2 = None ∧
  (HandleCallback report_completed 21 None None store_completed).1 ≠ store_completed ∧
  jobs (HandleCallback report_completed 21 None None store_completed).1 !! "job1" ≠
    Some job_completed ∧
  length (ringtones_of "job1"
            (HandleCallback report_completed 21 None None store_completed).1) = 2%nat ∧
  length (ringtones_of "job1"
            (HandleCallback report_completed 21 None None
               (HandleCallback report_completed 20 None None store_processing).1).1) =
    2%nat.
Proof.
  split; [reflexivity|]. split; [by left|]. split; [reflexivity|].
  split; [reflexivity|]. split; [|split; [|split]].
  - intros Heq. apply (f_equal (λ s, length (ringtones s))) in Heq.
    vm_compute in Heq. discriminate.
  - vm_compute. discriminate.
  - vm_compute. reflexivity.
  - vm_compute. reflexivity.
Qed.

(** C1, as the code has it.  A well-formed report on a job of the store,
    whatever the state of the job, terminal included, succeeds when the
    engine executes its writes, and is applied again each time: a
    [completed] report appends one more result record and rewrites the row
    to [completed] with no error message and a new update time, so the same
    report delivered twice leaves two more records; a [failed] report
    rewrites the row to [failed] with the message reported (the string under
    [error] in the metadata, the generic text when there is none) and
    appends nothing. *)
Theorem terminal_job_report_is_reapplied (req : CallbackRequest)
    (now now' : Time) (fault_insert fault_status : error) (s : Store) (j : Job) :
  jobs s !! CallbackRequest_JobID req = Some j →
  fault_insert = None →
  fault_status = None →
  (CallbackRequest_Status req = StatusCompleted →
   ∀ fp, CallbackRequest_FilePath req = Some fp →
   ∃ s1 s2,
     HandleCallback req now fault_insert fault_status s = (s1, None) ∧
     jobs s1 !! CallbackRequest_JobID req = Some (with_status StatusCompleted None now j) ∧
     length (ringtones_of (CallbackRequest_JobID req) s1) =
       S (length (ringtones_of (CallbackRequest_JobID req) s)) ∧
     HandleCallback req now' fault_insert fault_status s1 = (s2, None) ∧
     jobs s2 !! CallbackRequest_JobID req = Some (with_status StatusCompleted None now' j) ∧
     length (ringtones_of (CallbackRequest_JobID req) s2) =
       S (S (length (ringtones_of (CallbackRequest_JobID req) s)))) ∧
  (CallbackRequest_Status req = StatusFailed →
   ∃ s1,
     HandleCallback req now fault_insert fault_status s = (s1, None) ∧
     jobs s1 !! CallbackRequest_JobID req =
       Some (with_status StatusFailed
               (Some (default "Job failed in n8n workflow"
                        (metadata_string (CallbackRequest_Metadata req) "error")))
               now j) ∧
     (∀ id, id ≠ CallbackRequest_JobID req → jobs s1 !! id = jobs s !! id) ∧
     ringtones s1 = ringtones s).
Proof.
  intros Hj -> ->. split.
  - intros Hst fp Hfp.
    rewrite (HandleCallback_completed req now s j fp) by done.
    eexists _, _. split; [reflexivity|].
    split; [by cbn; rewrite lookup_insert_eq|].
    split.
    { unfold ringtones_of. cbn [ringtones]. rewrite filter_app, length_app.
      cbn. rewrite decide_True by done. cbn. lia. }
    erewrite HandleCallback_completed;
      [|by cbn; rewrite lookup_insert_eq|done|done].
    split; [reflexivity|].
    split; [by cbn; rewrite lookup_insert_eq|].
    unfold ringtones_of. cbn [ringtones]. rewrite !filter_app, !length_app.
    cbn. rewrite !decide_True by done. cbn. lia.
  - intros Hst. rewrite (HandleCallback_failed req now s j) by done.
    eexists. split; [reflexivity|].
    split; [by cbn; rewrite lookup_insert_eq|].
    split; [|done]. intros id Hid. cbn. by rewrite lookup_insert_ne.
Qed.

(** The completion report delivered twice more to the completed job of the
    scenario: three records in the end. *)
Lemma terminal_job_report_is_reapplied_witness :
  jobs store_completed !! CallbackRequest_JobID report_completed = Some job_completed ∧
  ∃ s1 s2,
    HandleCallback report_completed 21 None None store_completed = (s1, None) ∧
    HandleCallback report_completed 22 None None s1 = (s2, None) ∧
    jobs s2 !! "job1" = Some (with_status StatusCompleted None 22 job_completed) ∧
    length (ringtones_of "job1" s2) = 3%nat.
Proof.
  assert (H1 : jobs store_completed !! CallbackRequest_JobID report_completed =
               Some job_completed) by reflexivity.
  split; [exact H1|].
  destruct (proj1 (terminal_job_report_is_reapplied report_completed 21 22 None None
                     store_completed job_completed H1 eq_refl eq_refl)
              eq_refl "job1.mp3" eq_refl)
    as (s1 & s2 & E1 & _ & _ & E2 & E3 & E4).
  exists s1, s2. split; [exact E1|]. split; [exact E2|]. split; [exact E3|].
  exact E4.
Defined.

(** ** Status projection *)

Lemma GetJobStatus_store jobID s : (GetJobStatus jobID s).1 = s.
Proof.
  unfold GetJobStatus, GetJob, GetRingtoneByJobID.
  destruct (jobs s !! jobID) as [j|]; [|done].
  destruct (String.eqb _ _); [|done].
  by destruct (head _).
Qed.

(** C9. A poll leaves the store exactly as it was, and its view carries a
    download address only for a job whose stored status is [completed]; the
    address is built from the file name of the first result record of that
    job. *)
Theorem GetJobStatus_pure_projection (jobID : string) (s : Store) :
  (GetJobStatus jobID s).1 = s ∧
  ∀ view url,
    (GetJobStatus jobID s).2 = (Some view, None) →
    JobStatusResponse_DownloadURL view = Some url →
    JobStatusResponse_Status view = StatusCompleted ∧
    ∃ j r,
      jobs s !! jobID = Some j ∧ Job_Status j = StatusCompleted ∧
      head (ringtones_of jobID s) = Some r ∧
      r ∈ ringtones s ∧ Ringtone_JobID r = jobID ∧
      url = "/download/" +:+ Ringtone_FileName r.
Proof.
  split; [apply GetJobStatus_store|].
  unfold GetJobStatus, GetJob, GetRingtoneByJobID.
  destruct (jobs s !! jobID) as [j|] eqn:Hj; [|intros ?? [=]].
  destruct (String.eqb_spec (Job_Status j) StatusCompleted) as [Hst|Hst].
  - destruct (head (ringtones_of jobID s)) as [r|] eqn:Hr.
    + cbn. intros view url [= <-] [= <-]. cbn. split; [done|].
      exists j, r. repeat split; try done.
      * apply head_Some_elem_of in Hr. unfold ringtones_of in Hr.
        by apply list_elem_of_filter in Hr as [_ ?].
      * apply head_Some_elem_of in Hr. unfold ringtones_of in Hr.
        by apply list_elem_of_filter in Hr as [? _].
    + cbn. intros view url [= <-] [=].
  - cbn. intros view url [= <-] [=].
Qed.

(** The poll of the completed job of the scenario, and of the same job
    while it is processing. *)
Lemma GetJobStatus_pure_projection_witness :
  (GetJobStatus "job1" store_completed).1 = store_completed ∧
  (∃ view,
     (GetJobStatus "job1" store_completed).2 = (Some view, None) ∧
     JobStatusResponse_DownloadURL view = Some "/download/job1.mp3" ∧
     JobStatusResponse_Status view = StatusCompleted).
Proof.
  destruct (GetJobStatus_pure_projection "job1" store_completed) as [Hs Hv].
  split; [exact Hs|].
  eexists. split; [reflexivity|]. split; [reflexivity|].
  exact (proj1 (Hv _ "/download/job1.mp3" eq_refl eq_refl)).
Defined.

Example GetJobStatus_processing_has_no_url :
  ∃ view, (GetJobStatus "job1" store_processing).2 = (Some view, None) ∧
          JobStatusResponse_DownloadURL view = None.
Proof. eexists. split; reflexivity. Qed.

(** ** The transition system *)

(** ** Every operation is one of the writes *)

Lemma CreateJob_write json_Marshal jobID now fault req s :
  let '(s1, _, spawned) := CreateJob json_Marshal jobID now fault req s in
  (s1 = s ∧ spawned = None) ∨
  (jobs s !! jobID = None ∧
   (∃ row, Job_ID row = jobID ∧ Job_Status row = StatusQueued ∧
      Job_Attempts row = 0 ∧ Job_ErrorMessage row = None ∧
      s1 = set_jobs s (<[jobID := row]> (jobs s))) ∧
   ∃ sp, spawned = Some sp ∧ spawn_jobID sp = jobID).
Proof.
  unfold CreateJob.
  match goal with |- context [json_Marshal ?p] =>
    destruct (json_Marshal p) as [payloadStr [err|]] end; [by left|].
  unfold store.CreateJob. destruct fault; [by left|]. cbn [Job_ID].
  destruct (jobs s !! jobID) eqn:Hj; [by left|].
  right. split; [done|]. split; [|eauto].
  eexists; (split; [|split; [|split; [|split; [|reflexivity]]]]); reflexivity.
Qed.

Lemma handleCreateRingtone_write json_Marshal jobID now fault body s :
  let '(s1, _, spawned) := handleCreateRingtone json_Marshal jobID now fault body s in
  (s1 = s ∧ spawned = None) ∨
  (jobs s !! jobID = None ∧
   (∃ row, Job_ID row = jobID ∧ Job_Status row = StatusQueued ∧
      Job_Attempts row = 0 ∧ Job_ErrorMessage row = None ∧
      s1 = set_jobs s (<[jobID := row]> (jobs s))) ∧
   ∃ sp, spawned = Some sp ∧ spawn_jobID sp = jobID).
Proof.
  unfold handleCreateRingtone. destruct body as [req|]; [|by left].
  destruct (String.eqb _ ""); [by left|].
  destruct (negb _); [by left|].
  pose proof (CreateJob_write json_Marshal jobID now fault req s) as H.
  destruct (CreateJob json_Marshal jobID now fault req s)
    as [[s1 [resp [err|]]] spawned]; exact H.
Qed.

Lemma task_step_write now reply fault t s :
  write s (task_step now reply fault t s).1.2.
Proof.
  unfold task_step. destruct (task_pc t); cbn.
  - destruct fault; cbn; [constructor|apply write_attempt].
  - destruct reply; [destruct (_ =? _)%Z|]; constructor.
  - destruct fault; cbn; [constructor|]. apply write_status. right. right. eauto.
  - constructor.
  - destruct fault; cbn; [constructor|]. apply write_status. by left.
  - constructor.
Qed.

(** What a step of a handler does, program point by program point. *)
Lemma handler_step_cases now fault h s :
  handler_req (handler_step now fault h s).1 = handler_req h ∧
  match handler_pc h with
  | AtGetJob =>
      (handler_step now fault h s).2 = s ∧
      match handler_pc (handler_step now fault h s).1 with
      | AtCreateRingtone _ | AtUpdateFailed _ =>
          is_Some (jobs s !! CallbackRequest_JobID (handler_req h))
      | HReturned _ => True
      | _ => False
      end
  | AtCreateRingtone filePath =>
      ((handler_step now fault h s).2 = s ∧
       ∃ err, handler_pc (handler_step now fault h s).1 = HReturned (Some err)) ∨
      (fault = None ∧
       (handler_step now fault h s).2 =
         {| jobs := jobs s;
            ringtones := ringtones s ++
              [record_of s (CallbackRequest_JobID (handler_req h)) filePath
                 (int_of_float64 <$>
                    metadata_float64 (CallbackRequest_Metadata (handler_req h)) "duration")
                 now];
            ringtones_seq := ringtones_seq s + 1;
            foreign_keys := foreign_keys s |} ∧
       handler_pc (handler_step now fault h s).1 = AtUpdateCompleted)
  | AtUpdateCompleted =>
      ((handler_step now fault h s).2 = s ∧
       ∃ err, handler_pc (handler_step now fault h s).1 = HReturned (Some err)) ∨
      (fault = None ∧
       (handler_step now fault h s).2 =
         set_jobs s (alter (with_status StatusCompleted None now)
                       (CallbackRequest_JobID (handler_req h)) (jobs s)) ∧
       handler_pc (handler_step now fault h s).1 = HReturned None)
  | AtUpdateFailed errorMessage =>
      ((handler_step now fault h s).2 = s ∧
       ∃ err, handler_pc (handler_step now fault h s).1 = HReturned (Some err)) ∨
      (fault = None ∧
       (handler_step now fault h s).2 =
         set_jobs s (alter (with_status StatusFailed (Some errorMessage) now)
                       (CallbackRequest_JobID (handler_req h)) (jobs s)) ∧
       handler_pc (handler_step now fault h s).1 = HReturned None)
  | HReturned _ => handler_step now fault h s = (h, s)
  end.
Proof.
  unfold handler_step. destruct (handler_pc h) as [|fp| |msg|err] eqn:Hpc.
  - unfold GetJob.
    destruct (jobs s !! CallbackRequest_JobID (handler_req h)) as [j|] eqn:Hj;
      [|by cbn].
    destruct (String.eqb _ StatusCompleted).
    + destruct (CallbackRequest_FilePath (handler_req h)); cbn; eauto.
    + destruct (String.eqb _ StatusFailed); cbn; eauto.
  - unfold CreateRingtone. destruct fault as [msg|]; [cbn; eauto|].
    cbn [Ringtone_JobID].
    destruct (foreign_keys s && _); cbn -[metadata_float64]; [eauto|].
    split; [done|]. right. split; [done|]. split; [|done].
    unfold record_of. by destruct (metadata_float64 _ _).
  - destruct fault as [msg|]; cbn; eauto.
  - destruct fault as [msg'|]; cbn; eauto.
  - done.
Qed.

Lemma handler_step_write now fault h s : write s (handler_step now fault h s).2.
Proof.
  pose proof (handler_step_cases now fault h s) as [_ H].
  destruct (handler_pc h).
  - destruct H as [-> _]. constructor.
  - destruct H as [[-> _]|(_ & -> & _)]; [constructor|apply write_record].
  - destruct H as [[-> _]|(_ & -> & _)]; [constructor|]. apply write_status.
    right. by left.
  - destruct H as [[-> _]|(_ & -> & _)]; [constructor|]. apply write_status.
    right. right. eauto.
  - rewrite H. constructor.
Qed.

Lemma step_write json_Marshal a w : write (db w) (db (step json_Marshal a w)).
Proof.
  destruct a as [jobID now fault body|req|i now fault|jobID|i now reply fault];
    cbn [step].
  - pose proof (handleCreateRingtone_write json_Marshal jobID now fault body (db w)) as H.
    destruct (handleCreateRingtone _ _ _ _ _ _) as [[s1 resp] spawned]. cbn.
    destruct H as [[-> _]|(Hfresh & (row & ? & ? & ? & ? & ->) & _)].
    + constructor.
    + by apply write_job.
  - constructor.
  - destruct (handlers w !! i) as [h|]; [|constructor].
    pose proof (handler_step_write now fault h (db w)) as H.
    by destruct (handler_step now fault h (db w)) as [h' s1].
  - pose proof (GetJobStatus_store jobID (db w)) as H.
    destruct (GetJobStatus jobID (db w)). cbn in *. subst. constructor.
  - destruct (tasks w !! i) as [t|]; [|constructor].
    pose proof (task_step_write now reply fault t (db w)) as H.
    by destruct (task_step now reply fault t (db w)) as [[t' s1] evs].
Qed.

Lemma run_snoc json_Marshal acts a w :
  run json_Marshal (acts ++ [a]) w = step json_Marshal a (run json_Marshal acts w).
Proof. unfold run. by rewrite foldl_app. Qed.

(** An invariant of the store that every write keeps holds in every state
    that can be reached. *)
Lemma reachable_invariant json_Marshal (P : Store → Prop) :
  (∀ fk, P (db (initial fk))) →
  (∀ s s', write s s' → P s → P s') →
  ∀ w, reachable json_Marshal w → P (db w).
Proof.
  intros Hinit Hstep w (fk & acts & ->).
  induction acts as [|a acts IH] using rev_ind; [apply Hinit|].
  rewrite run_snoc. eapply Hstep; [apply step_write|exact IH].
Qed.

(** No write removes a job or a record. *)
Lemma write_jobs_stay s s' id :
  write s s' → is_Some (jobs s !! id) → is_Some (jobs s' !! id).
Proof.
  intros Hw Hid. destruct Hw; cbn; try done.
  - apply lookup_insert_is_Some'. by right.
  - by apply lookup_alter_is_Some.
  - by apply lookup_alter_is_Some.
Qed.

Lemma write_prefix s s' : write s s' → ringtones s `prefix_of` ringtones s'.
Proof. intros Hw. destruct Hw; cbn; try done. by apply prefix_app_r. Qed.

Lemma ringtones_of_nil id s :
  ringtones_of id s = [] ↔ ∀ r, r ∈ ringtones s → Ringtone_JobID r ≠ id.
Proof.
  unfold ringtones_of. split.
  - intros Hnil r Hr Heq. exact (filter_nil_not_elem_of _ _ r Hnil Heq Hr).
  - intros Hno. destruct (filter _ _) as [|r l] eqn:Hf; [done|].
    assert (Hin : r ∈ filter (λ r, Ringtone_JobID r = id) (ringtones s))
      by (rewrite Hf; left).
    apply list_elem_of_filter in Hin as [Heq Hin]. by destruct (Hno r Hin).
Qed.

Lemma write_records_stay s s' id :
  write s s' → ringtones_of id s ≠ [] → ringtones_of id s' ≠ [].
Proof.
  intros [l Hl]%write_prefix Hne. unfold ringtones_of in *.
  rewrite Hl, filter_app. by destruct (filter _ (ringtones s)).
Qed.

(** ** The invariant of the two tables *)

Lemma queued_not_completed : StatusQueued ≠ StatusCompleted.
Proof. discriminate. Qed.

Lemma handler_ok_write s s' h : write s s' → handler_ok s h → handler_ok s' h.
Proof.
  intros Hw. unfold handler_ok. destruct (handler_pc h); try done.
  - by apply write_jobs_stay.
  - intros [? ?]. split; [by eapply write_jobs_stay|by eapply write_records_stay].
  - by apply write_jobs_stay.
Qed.

(** The writes that keep the two tables consistent: the row of a new job,
    a counted attempt, a status other than [completed], the status
    [completed] for a job that has a record, and a record for a job of the
    store. *)
Lemma consistent_job s id row :
  consistent s → jobs s !! id = None → Job_Status row = StatusQueued →
  consistent (set_jobs s (<[id := row]> (jobs s))).
Proof.
  intros [Hown Hst] Hfresh Hq. split; cbn [set_jobs jobs ringtones].
  - intros r Hr. apply lookup_insert_is_Some'. right. by apply Hown.
  - intros id' j. destruct (decide (id = id')) as [<-|Hne].
    + rewrite lookup_insert_eq. intros [= <-] Hc. rewrite Hq in Hc.
      by destruct queued_not_completed.
    + rewrite lookup_insert_ne by done. apply Hst.
Qed.

Lemma consistent_alter s id f :
  consistent s →
  (∀ j, jobs s !! id = Some j → Job_Status (f j) = StatusCompleted →
        ringtones_of id s ≠ []) →
  consistent (set_jobs s (alter f id (jobs s))).
Proof.
  intros [Hown Hst] Hf. split; cbn [set_jobs jobs ringtones].
  - intros r Hr. apply lookup_alter_is_Some. by apply Hown.
  - intros id' j. destruct (decide (id = id')) as [<-|Hne].
    + rewrite lookup_alter_eq.
      destruct (jobs s !! id) as [j0|] eqn:Hj0; [|done].
      intros [= <-]. by apply Hf.
    + rewrite lookup_alter_ne by done. apply Hst.
Qed.

Lemma consistent_record s r :
  consistent s → is_Some (jobs s !! Ringtone_JobID r) →
  consistent {| jobs := jobs s; ringtones := ringtones s ++ [r];
                ringtones_seq := ringtones_seq s + 1;
                foreign_keys := foreign_keys s |}.
Proof.
  intros [Hown Hst] Hjob. split; cbn [jobs ringtones].
  - intros r' [Hr'|Hr']%elem_of_app; [by apply Hown|].
    by apply list_elem_of_singleton in Hr' as ->.
  - intros id j Hj Hc. unfold ringtones_of. cbn [ringtones]. rewrite filter_app.
    specialize (Hst id j Hj Hc). unfold ringtones_of in Hst.
    by destruct (filter _ (ringtones s)).
Qed.

Lemma ringtones_of_snoc id s r l seq fk :
  Ringtone_JobID r = id →
  ringtones_of id {| jobs := l; ringtones := ringtones s ++ [r];
                     ringtones_seq := seq; foreign_keys := fk |} ≠ [].
Proof.
  intros Hr. unfold ringtones_of. cbn [ringtones]. rewrite filter_app.
  rewrite (filter_singleton_True _ r []) by done.
  by destruct (filter _ (ringtones s)).
Qed.

Lemma elem_of_list_insert_inv {A} (l : list A) (i : nat) (x y : A) :
  y ∈ <[i := x]> l → y = x ∨ y ∈ l.
Proof.
  intros Hy. apply list_elem_of_lookup in Hy as [k Hk].
  apply list_lookup_insert_Some in Hk as [(-> & -> & _)|[_ Hk]]; [by left|].
  right. apply list_elem_of_lookup. eauto.
Qed.

Lemma task_step_consistent now reply fault t s :
  consistent s → consistent (task_step now reply fault t s).1.2.
Proof.
  intros Hc. unfold task_step. destruct (task_pc t); cbn.
  - destruct fault; cbn; [done|]. apply consistent_alter; [done|].
    intros j Hj Hst. destruct Hc as [_ Hc]. by apply (Hc _ j).
  - by destruct reply; [destruct (_ =? _)%Z|].
  - destruct fault; cbn; [done|]. by apply consistent_alter.
  - done.
  - destruct fault; cbn; [done|]. by apply consistent_alter.
  - done.
Qed.

Lemma step_handlers json_Marshal a w :
  match a with
  | Reconcile _ | Serve _ _ _ => True
  | _ => handlers (step json_Marshal a w) = handlers w
  end.
Proof.
  destruct a as [jobID now fault body|req|i now fault|jobID|i now reply fault];
    cbn [step]; try done.
  - by destruct (handleCreateRingtone _ _ _ _ _ _) as [[s1 resp] spawned].
  - by destruct (GetJobStatus jobID (db w)).
  - destruct (tasks w !! i) as [t|]; [|done].
    by destruct (task_step now reply fault t (db w)) as [[t' s1] evs].
Qed.

Lemma step_sound json_Marshal a w : sound w → sound (step json_Marshal a w).
Proof.
  intros [Hc Hh].
  assert (Hothers : ∀ h, h ∈ handlers w →
            handler_ok (db (step json_Marshal a w)) h).
  { intros h Hin. eapply handler_ok_write; [apply step_write|by apply Hh]. }
  destruct a as [jobID now fault body|req|i now fault|jobID|i now reply fault].
  - split; [|by rewrite (step_handlers json_Marshal (Submit jobID now fault body) w)].
    cbn [step].
    pose proof (handleCreateRingtone_write json_Marshal jobID now fault body (db w)) as H.
    destruct (handleCreateRingtone _ _ _ _ _ _) as [[s1 resp] spawned]. cbn.
    destruct H as [[-> _]|(Hfresh & (row & ? & ? & ? & ? & ->) & _)]; [done|].
    by apply consistent_job.
  - split; [done|]. cbn. intros h [Hin|Hin]%elem_of_app; [by apply Hh|].
    by apply list_elem_of_singleton in Hin as ->.
  - cbn [step] in *. destruct (handlers w !! i) as [h|] eqn:Hi; [|by split].
    assert (Hin : h ∈ handlers w) by (apply list_elem_of_lookup; eauto).
    specialize (Hh h Hin). unfold handler_ok in Hh.
    pose proof (handler_step_cases now fault h (db w)) as [Hreq Hcases].
    destruct (handler_step now fault h (db w)) as [h' s1]. cbn [fst snd db handlers] in *.
    assert (Hnew : consistent s1 ∧ handler_ok s1 h').
    { unfold handler_ok. rewrite Hreq.
      destruct (handler_pc h) as [|fp| |msg|err] eqn:Hpc0.
      - destruct Hcases as [-> Hpc]. split; [done|].
        by destruct (handler_pc h').
      - destruct Hcases as [[-> [err ->]]|(_ & -> & ->)]; [done|]. split.
        + apply consistent_record; [done|exact Hh].
        + split; [done|]. by apply ringtones_of_snoc.
      - destruct Hcases as [[-> [err ->]]|(_ & -> & ->)]; [done|]. split; [|done].
        apply consistent_alter; [done|]. by destruct Hh.
      - destruct Hcases as [[-> [err ->]]|(_ & -> & ->)]; [done|]. split; [|done].
        by apply consistent_alter.
      - injection Hcases as ? ?. subst h' s1. by rewrite Hpc0. }
    destruct Hnew as [Hc' Hh']. split; [done|].
    intros h2 [->|Hin2]%elem_of_list_insert_inv; [done|by apply Hothers].
  - split; [|by rewrite (step_handlers json_Marshal (Poll jobID) w)]. cbn [step].
    pose proof (GetJobStatus_store jobID (db w)) as H.
    destruct (GetJobStatus jobID (db w)). cbn in *. by subst.
  - split; [|by rewrite (step_handlers json_Marshal (Advance i now reply fault) w)].
    cbn [step]. destruct (tasks w !! i) as [t|]; [|done].
    pose proof (task_step_consistent now reply fault t (db w) Hc) as H.
    by destruct (task_step now reply fault t (db w)) as [[t' s1] evs].
Qed.

Lemma initial_sound fk : sound (initial fk).
Proof.
  split; [split|].
  - by intros r Hr%elem_of_nil.
  - intros id j. cbn. by rewrite lookup_empty.
  - by intros h Hh%elem_of_nil.
Qed.

Lemma reachable_sound json_Marshal w : reachable json_Marshal w → sound w.
Proof.
  intros (fk & acts & ->). induction acts as [|a acts IH] using rev_ind.
  - apply initial_sound.
  - rewrite run_snoc. by apply step_sound.
Qed.




(** ** No way back to [queued], and when a terminal state is final *)

Lemma processing_not_queued : StatusProcessing ≠ StatusQueued.
Proof. discriminate. Qed.
Lemma completed_not_queued : StatusCompleted ≠ StatusQueued.
Proof. discriminate. Qed.
Lemma failed_not_queued : StatusFailed ≠ StatusQueued.
Proof. discriminate. Qed.

Lemma terminal_not_queued status : terminal status → status ≠ StatusQueued.
Proof. intros [-> | ->]; discriminate. Qed.

Lemma write_not_queued s s' id j :
  write s s' →
  jobs s !! id = Some j → Job_Status j ≠ StatusQueued →
  ∃ j', jobs s' !! id = Some j' ∧ Job_Status j' ≠ StatusQueued.
Proof.
  intros Hw Hj Hnq.
  destruct Hw as [|id0 row Hfresh _ _ _ _|id0 now|id0 status msg now Hs
                  |id0 fp d now]; cbn [jobs set_jobs].
  - eauto.
  - exists j. split; [|done]. rewrite lookup_insert_ne; [done|congruence].
  - destruct (decide (id0 = id)) as [->|Hne].
    + rewrite lookup_alter_eq, Hj. eauto.
    + rewrite lookup_alter_ne by done. eauto.
  - destruct (decide (id0 = id)) as [->|Hne].
    + rewrite lookup_alter_eq, Hj. eexists. split; [done|]. cbn.
      destruct Hs as [[-> _]|[[-> _]|[-> _]]]; discriminate.
    + rewrite lookup_alter_ne by done. eauto.
  - eauto.
Qed.

Lemma run_not_queued json_Marshal acts w id j :
  jobs (db w) !! id = Some j → Job_Status j ≠ StatusQueued →
  ∃ j', jobs (db (run json_Marshal acts w)) !! id = Some j' ∧
        Job_Status j' ≠ StatusQueued.
Proof.
  revert w j. induction acts as [|a acts IH]; intros w j Hj Hnq; [eauto|].
  cbn. destruct (write_not_queued _ _ id j (step_write json_Marshal a w) Hj Hnq)
    as (j1 & Hj1 & Hnq1).
  by apply (IH _ j1).
Qed.

Lemma handler_step_terminal now fault h s id j :
  jobs s !! id = Some j → terminal (Job_Status j) →
  ∃ j', jobs (handler_step now fault h s).2 !! id = Some j' ∧
        terminal (Job_Status j').
Proof.
  intros Hj Ht. pose proof (handler_step_cases now fault h s) as [_ H].
  destruct (handler_pc h).
  - destruct H as [-> _]. eauto.
  - destruct H as [[-> _]|(_ & -> & _)]; eauto.
  - destruct H as [[-> _]|(_ & -> & _)]; [eauto|]. cbn.
    destruct (decide (CallbackRequest_JobID (handler_req h) = id)) as [->|Hne].
    + rewrite lookup_alter_eq, Hj. eexists. split; [done|]. by left.
    + rewrite lookup_alter_ne by done. eauto.
  - destruct H as [[-> _]|(_ & -> & _)]; [eauto|]. cbn.
    destruct (decide (CallbackRequest_JobID (handler_req h) = id)) as [->|Hne].
    + rewrite lookup_alter_eq, Hj. eexists. split; [done|]. by right.
    + rewrite lookup_alter_ne by done. eauto.
  - rewrite H. eauto.
Qed.

Lemma task_step_jobID now reply fault t s :
  task_jobID (task_step now reply fault t s).1.1 = task_jobID t.
Proof.
  unfold task_step. destruct (task_pc t); cbn; try done.
  - by destruct (IncrementJobAttempts _ _ _ _).
  - destruct reply; [destruct (_ =? _)%Z|]; done.
  - by destruct (UpdateJobStatus _ _ _ _ _ _).
  - by destruct (UpdateJobStatus _ _ _ _ _ _).
Qed.

Lemma task_step_settled now reply fault t s id j :
  jobs s !! id = Some j → terminal (Job_Status j) →
  (task_jobID t = id → settled (task_pc t)) →
  (task_jobID t = id → settled (task_pc (task_step now reply fault t s).1.1)) ∧
  ∃ j', jobs (task_step now reply fault t s).1.2 !! id = Some j' ∧
        terminal (Job_Status j').
Proof.
  intros Hj Ht Hset. unfold task_step.
  destruct (decide (task_jobID t = id)) as [Heq|Hne].
  - specialize (Hset Heq). destruct (task_pc t) eqn:Hpc; try done.
    + destruct fault as [msg|]; cbn; [eauto|]. split; [done|]. rewrite Heq.
      rewrite lookup_alter_eq, Hj. eexists. split; [done|]. by right.
    + cbn. split; [by rewrite Hpc|eauto].
  - split; [done|].
    destruct (task_pc t); cbn; destruct fault; cbn;
      rewrite ?lookup_alter_ne by done; eauto;
      destruct reply; [destruct (_ =? _)%Z| |destruct (_ =? _)%Z|]; cbn; eauto.
Qed.

Lemma step_settled json_Marshal a w id j :
  jobs (db w) !! id = Some j → terminal (Job_Status j) → loops_settled id w →
  (∃ j', jobs (db (step json_Marshal a w)) !! id = Some j' ∧
         terminal (Job_Status j')) ∧
  loops_settled id (step json_Marshal a w).
Proof.
  intros Hj Ht Hset.
  destruct a as [jobID now fault body|req|i now fault|jobID|i now reply fault];
    cbn [step].
  - pose proof (handleCreateRingtone_write json_Marshal jobID now fault body (db w)) as H.
    destruct (handleCreateRingtone _ _ _ _ _ _) as [[s1 resp] spawned].
    destruct H as [[-> ->]|(Hfresh & (row & ? & ? & ? & ? & ->) & sp & -> & Hsp)]; cbn.
    + split; [eauto|]. intros t Hin. cbn in Hin. rewrite app_nil_r in Hin.
      by apply Hset.
    + assert (Hne : jobID ≠ id) by congruence.
      split; [rewrite lookup_insert_ne by done; eauto|].
      intros t Hin Hid. cbn in Hin.
      apply elem_of_app in Hin as [Hin|Hin]; [by apply Hset|].
      apply list_elem_of_singleton in Hin as ->. cbn in Hid. congruence.
  - split; [eauto|done].
  - destruct (handlers w !! i) as [h|]; [|split; eauto].
    pose proof (handler_step_terminal now fault h (db w) id j Hj Ht) as H.
    destruct (handler_step now fault h (db w)) as [h' s1]. by split.
  - pose proof (GetJobStatus_store jobID (db w)) as H.
    destruct (GetJobStatus jobID (db w)). cbn in *. subst. split; eauto.
  - destruct (tasks w !! i) as [t|] eqn:Hi; [|split; eauto].
    assert (Hin : t ∈ tasks w) by (apply list_elem_of_lookup; eauto).
    pose proof (task_step_settled now reply fault t (db w) id j Hj Ht
                  (λ Hid, Hset t Hin Hid)) as [Hs Hjob].
    pose proof (task_step_jobID now reply fault t (db w)) as Hid.
    destruct (task_step now reply fault t (db w)) as [[t' s1] evs]. cbn in *.
    split; [done|]. intros t'' Hin'' Hid''. cbn in Hin''.
    apply elem_of_list_insert_inv in Hin'' as [->|Hin'']; [|by apply Hset].
    apply Hs. congruence.
Qed.

Lemma run_settled json_Marshal acts w id j :
  jobs (db w) !! id = Some j → terminal (Job_Status j) → loops_settled id w →
  ∃ j', jobs (db (run json_Marshal acts w)) !! id = Some j' ∧
        terminal (Job_Status j').
Proof.
  revert w j. induction acts as [|a acts IH]; intros w j Hj Ht Hset; [eauto|].
  cbn. destruct (step_settled json_Marshal a w id j Hj Ht Hset)
    as [(j1 & Hj1 & Ht1) Hset1].
  by apply (IH _ j1).
Qed.

(** C3 does not hold as stated.  The worker reports the completion while
    the retry loop, whose webhook call has just been accepted, has not yet
    written: the job is [completed]; the loop then writes and returns, and
    the job is observed in [processing]. *)
Lemma completed_job_observed_in_processing :
  let before := run encoder overtaken (initial true) in
  let after := step encoder (Advance 0 21 None None) before in
  (∃ j, jobs (db before) !! "job1" = Some j ∧ Job_Status j = StatusCompleted) ∧
  (∃ j, jobs (db after) !! "job1" = Some j ∧ Job_Status j = StatusProcessing) ∧
  (∃ t, tasks after = [t] ∧ task_pc t = Returned).
Proof.
  cbv zeta. split; [|split]; eexists; (split; [vm_compute; reflexivity|]);
    reflexivity.
Qed.

(** C3, as the code has it.  Take a state in which the job is [completed]
    or [failed].  Whatever the schedule of submissions, callbacks, polls and
    steps of retry loops and handlers that follows, and whatever writes the
    engine refuses, the job is still in the store and is not [queued].  If,
    in the state taken, the retry loop of the job has returned or has only
    its [failed] write left, the job is [completed] or [failed] in every
    later state as well. *)
Theorem terminal_never_queued_again (json_Marshal : N8NPayload → string * error)
    (acts : list Action) (w : World) (id : string) (j : Job) :
  jobs (db w) !! id = Some j →
  terminal (Job_Status j) →
  ∃ j', jobs (db (run json_Marshal acts w)) !! id = Some j' ∧
        Job_Status j' ≠ StatusQueued ∧
        (loops_settled id w → terminal (Job_Status j')).
Proof.
  intros Hj Ht.
  destruct (run_not_queued json_Marshal acts w id j Hj (terminal_not_queued _ Ht))
    as (j' & Hj' & Hnq).
  exists j'. repeat split; [done..|].
  intros Hset.
  destruct (run_settled json_Marshal acts w id j Hj Ht Hset) as (j'' & Hj'' & Ht'').
  congruence.
Qed.

(** The completed job of the scenario, its retry loop returned, under one
    more round of reports and polls. *)
Lemma terminal_never_queued_again_witness :
  let w := run encoder (dispatched ++ delivered 0 report_completed 20) (initial true) in
  let acts := delivered 1 report_failed 30 ++
              [Poll "job1"; Advance 0 31 None None;
               Submit "job1" 32 None (Some request)] in
  jobs (db w) !! "job1" = Some job_completed ∧
  terminal (Job_Status job_completed) ∧
  loops_settled "job1" w ∧
  ∃ j', jobs (db (run encoder acts w)) !! "job1" = Some j' ∧
        Job_Status j' ≠ StatusQueued ∧ terminal (Job_Status j').
Proof.
  cbv zeta.
  assert (H1 : jobs (db (run encoder (dispatched ++ delivered 0 report_completed 20)
                           (initial true))) !! "job1" = Some job_completed)
    by (vm_compute; reflexivity).
  assert (H2 : terminal (Job_Status job_completed)) by (left; reflexivity).
  assert (H3 : loops_settled "job1"
                 (run encoder (dispatched ++ delivered 0 report_completed 20)
                    (initial true))).
  { intros t Hin _. vm_compute in Hin.
    apply list_elem_of_singleton in Hin as ->. exact I. }
  split; [exact H1|]. split; [exact H2|]. split; [exact H3|].
  destruct (terminal_never_queued_again encoder
              (delivered 1 report_failed 30 ++
               [Poll "job1"; Advance 0 31 None None;
                Submit "job1" 32 None (Some request)])
              _ "job1" job_completed H1 H2) as (j' & E1 & E2 & E3).
  exists j'. split; [exact E1|]. split; [exact E2|]. exact (E3 H3).
Defined.

(** ** The task and the function are the same loop *)

Section Solo.
Variables (jobID : string) (payload : N8NPayload) (env : Z → AttemptEnv).

Local Abbreviation task pc :=
  {| task_jobID := jobID; task_payload := payload; task_pc := pc |}.

Lemma solo_returned fuel s : solo fuel env (task Returned) s = Some (s, []).
Proof. by destruct fuel. Qed.

Lemma solo_increment fuel a s :
  solo (S fuel) env (task (AtIncrement a)) s =
    solo fuel env (task (AtWebhook a))
      (IncrementJobAttempts (fault_increment (env a)) jobID (at_increment (env a)) s).1.
Proof.
  cbn. destruct (IncrementJobAttempts _ _ _ _) as [s1 e1]. cbn.
  by destruct (solo fuel env _ _) as [[? ?]|].
Qed.

Lemma solo_mark_processing fuel a s :
  solo (S fuel) env (task (AtMarkProcessing a)) s =
    Some ((UpdateJobStatus (fault_update (env a)) jobID StatusProcessing None
             (at_update (env a)) s).1, []).
Proof.
  cbn. destruct (UpdateJobStatus _ _ _ _ _ _) as [s1 e1]. cbn.
  change (set_pc _ Returned) with (task Returned). by rewrite solo_returned.
Qed.

Lemma solo_mark_failed fuel a err s :
  solo (S fuel) env (task (AtMarkFailed a err)) s =
    Some ((UpdateJobStatus (fault_update (env a)) jobID StatusFailed
             (Some (exhaustedMsg err)) (at_update (env a)) s).1, []).
Proof.
  cbn. destruct (UpdateJobStatus _ _ _ _ _ _) as [s1 e1]. cbn.
  change (set_pc _ Returned) with (task Returned). by rewrite solo_returned.
Qed.

Lemma solo_webhook fuel a s :
  solo (S fuel) env (task (AtWebhook a)) s =
    match
      solo fuel env
        (task (match webhook (env a) with
               | Some err =>
                   if (a =? maxAttempts)%Z then AtMarkFailed a err else AtSleep a
               | None => AtMarkProcessing a
               end)) s
    with
    | Some (s', evs) => Some (s', EvWebhook a payload :: evs)
    | None => None
    end.
Proof.
  cbn [solo task_pc pc_now pc_fault pc_attempt]. unfold task_step at 1. cbn [task_pc].
  destruct (webhook (env a)); [destruct (_ =? _)%Z|]; reflexivity.
Qed.

Lemma solo_sleep fuel a s :
  solo (S fuel) env (task (AtSleep a)) s =
    match solo fuel env (task (loop_head (a + 1))) s with
    | Some (s', evs) => Some (s', EvSleep (backoff a) :: evs)
    | None => None
    end.
Proof. reflexivity. Qed.

(** Run alone, the task of a job makes the writes and the calls of
    [triggerN8NWorkflow], in the same order. *)
Lemma solo_triggerN8NWorkflow s :
  solo 9 env (spawn {| spawn_jobID := jobID; spawn_payload := payload |}) s =
    triggerN8NWorkflow jobID payload env s.
Proof.
  unfold triggerN8NWorkflow. change (Z.to_nat maxAttempts) with 3%nat.
  change (spawn _) with (task (AtIncrement 1)).
  rewrite solo_increment, solo_webhook.
  destruct (webhook (env 1)) as [e1|] eqn:H1;
    [|turn; by rewrite solo_mark_processing].
  change (1 =? maxAttempts)%Z with false. cbv iota.
  rewrite solo_sleep. change (loop_head (1 + 1)) with (AtIncrement 2).
  rewrite solo_increment, solo_webhook.
  destruct (webhook (env 2)) as [e2|] eqn:H2;
    [|do 2 turn; by rewrite solo_mark_processing].
  change (2 =? maxAttempts)%Z with false. cbv iota.
  rewrite solo_sleep. change (loop_head (2 + 1)) with (AtIncrement 3).
  rewrite solo_increment, solo_webhook.
  change 3 with maxAttempts in *.
  destruct (webhook (env maxAttempts)) as [e3|] eqn:H3; do 3 turn.
  - rewrite Z.eqb_refl. by rewrite solo_mark_failed.
  - by rewrite solo_mark_processing.
Qed.
End Solo.

(** Run alone, the handler of a callback makes the calls of
    [Manager.HandleCallback] and returns what it returns. *)
Lemma serve_HandleCallback req now fault_insert fault_status s :
  serve 3 now fault_insert fault_status
    {| handler_req := req; handler_pc := AtGetJob |} s =
    Some (HandleCallback req now fault_insert fault_status s).
Proof.
  unfold HandleCallback, handleCompletedCallback, handleFailedCallback.
  cbn -[GetJob CreateRingtone UpdateJobStatus metadata_float64 metadata_string].
  unfold GetJob. destruct (jobs s !! CallbackRequest_JobID req) as [j|]; [|done].
  destruct (String.eqb _ StatusCompleted).
  - destruct (CallbackRequest_FilePath req) as [fp|]; [|done].
    cbn -[CreateRingtone UpdateJobStatus metadata_float64].
    destruct (CreateRingtone _ _ _) as [s1 [r [e|]]]; [done|].
    cbn -[UpdateJobStatus].
    by destruct (UpdateJobStatus _ _ _ _ _ _) as [s2 [e|]].
  - destruct (String.eqb _ StatusFailed); [|done].
    cbn -[UpdateJobStatus metadata_string].
    by destruct (UpdateJobStatus _ _ _ _ _ _) as [s2 [e|]].
Qed.

(** ** What a run keeps of a job, and the submission *)

Import bookkeeping.

Lemma kept_refl j : kept j j.
Proof. repeat split; lia. Qed.

Lemma kept_trans j1 j2 j3 : kept j1 j2 → kept j2 j3 → kept j1 j3.
Proof.
  intros (?&?&?&?&?&?) (?&?&?&?&?&?). repeat split; try congruence; lia.
Qed.

Lemma write_kept s s' id j :
  write s s' → jobs s !! id = Some j →
  ∃ j', jobs s' !! id = Some j' ∧ kept j j'.
Proof.
  intros Hw Hj.
  destruct Hw as [|id0 row Hfresh _ _ _ _|id0 now|id0 status msg now Hs
                  |id0 fp d now]; cbn [jobs set_jobs].
  - exists j. split; [done|apply kept_refl].
  - exists j. split; [|apply kept_refl].
    rewrite lookup_insert_ne; [done|congruence].
  - destruct (decide (id0 = id)) as [->|Hne].
    + rewrite lookup_alter_eq, Hj. eexists. split; [reflexivity|].
      repeat split; cbn; lia.
    + rewrite lookup_alter_ne by done.
      exists j. split; [done|apply kept_refl].
  - destruct (decide (id0 = id)) as [->|Hne].
    + rewrite lookup_alter_eq, Hj. eexists. split; [reflexivity|].
      repeat split; cbn; lia.
    + rewrite lookup_alter_ne by done.
      exists j. split; [done|apply kept_refl].
  - exists j. split; [done|apply kept_refl].
Qed.

Lemma run_kept json_Marshal acts w id j :
  jobs (db w) !! id = Some j →
  ∃ j', jobs (db (run json_Marshal acts w)) !! id = Some j' ∧ kept j j'.
Proof.
  intros Hj. induction acts as [|a acts IH] using rev_ind.
  - exists j. split; [done|apply kept_refl].
  - destruct IH as (j1 & Hj1 & Hk1). rewrite run_snoc.
    destruct (write_kept _ _ id j1 (step_write json_Marshal a _) Hj1) as (j2 & Hj2 & Hk2).
    exists j2. split; [done|]. by eapply kept_trans.
Qed.

(** C6 does not hold as stated.  A submission with a valid source and a
    fresh identifier is answered 500 when the engine refuses the INSERT,
    as it does when another writer holds the database: no row is
    persisted, no handle returned and no loop launched.  And once the
    submission has gone through, the first step of the loop it has
    launched already shows the job with one attempt. *)
Lemma valid_submission_not_persisted :
  jobs store_empty !! "job1" = None ∧
  isValidURL (CreateJobRequest_SourceURL request) = true ∧
  handleCreateRingtone encoder "job1" 10 locked (Some request) store_empty =
    (store_empty,
     writeError "Failed to create job" "JOB_CREATION_ERROR" StatusInternalServerError,
     None) ∧
  (CreateJob encoder "job1" 10 locked request store_empty).1.2.1 = None ∧
  jobs (CreateJob encoder "job1" 10 locked request store_empty).1.1 !! "job1" = None ∧
  jobs (db (run encoder [Submit "job1" 10 None (Some request); Advance 0 11 None None]
              (initial true))) !! "job1" = Some (job_at StatusQueued 11 1 None).
Proof. by repeat split. Qed.

(** C6, as the code has it.  For a submission whose identifier is fresh
    and whose payload encodes: when the engine executes the INSERT the
    call returns with the job row in the store in [queued] with zero
    attempts, the handle made of the identifier, [queued] and the poll
    address of that identifier, and a read of that store and a status poll
    observe the row; the first step of the loop the call has launched
    leaves the job [queued] and counts one attempt, unless the engine
    refuses the increment; and in every state a run reaches from that
    store the row is still there, with the identifier and the source of
    the submission.  When the engine refuses the INSERT the call returns
    its error, the store is as it was and no loop is launched. *)
Theorem CreateJob_persists_queued (json_Marshal : N8NPayload → string * error)
    (jobID : string) (now : Time) (fault : error) (req : CreateJobRequest)
    (s : Store) :
  jobs s !! jobID = None →
  (∀ p, (json_Marshal p).2 = None) →
  (fault = None →
   ∃ s' j sp view,
     CreateJob json_Marshal jobID now fault req s =
       (s',
        (Some {| CreateJobResponse_JobID := jobID;
                 CreateJobResponse_Status := StatusQueued;
                 CreateJobResponse_PollURL := "/api/v1/job-status/" +:+ jobID |},
         None),
        Some sp) ∧
     spawn_jobID sp = jobID ∧
     GetJob jobID s' = (s', (Some j, None)) ∧
     Job_ID j = jobID ∧
     Job_SourceURL j = CreateJobRequest_SourceURL req ∧
     Job_Status j = StatusQueued ∧
     Job_Attempts j = 0 ∧
     Job_ErrorMessage j = None ∧
     GetJobStatus jobID s' = (s', (Some view, None)) ∧
     JobStatusResponse_Status view = StatusQueued ∧
     (∀ id, id ≠ jobID → jobs s' !! id = jobs s !! id) ∧
     ringtones s' = ringtones s ∧
     (∀ now' reply fault', ∃ j1,
        jobs (task_step now' reply fault' (spawn sp) s').1.2 !! jobID = Some j1 ∧
        Job_Status j1 = StatusQueued ∧
        Job_Attempts j1 = landed fault') ∧
     (∀ acts w, db w = s' → ∃ j2,
        jobs (db (run json_Marshal acts w)) !! jobID = Some j2 ∧
        Job_ID j2 = jobID ∧
        Job_SourceURL j2 = CreateJobRequest_SourceURL req)) ∧
  (∀ msg, fault = Some msg →
   CreateJob json_Marshal jobID now fault req s =
     (s,
      (None,
       Some (wrapf "failed to create job in database"
               (wrapf "failed to create job" msg))),
      None)).
Proof.
  intros Hfresh Hmarshal. unfold CreateJob.
  match goal with |- context [json_Marshal ?p] =>
    specialize (Hmarshal p); destruct (json_Marshal p) as [payloadStr err] end.
  simpl in Hmarshal. subst err. split.
  - intros ->. unfold store.CreateJob. cbn [Job_ID]. rewrite Hfresh.
    eexists _, _, _, _. split; [reflexivity|].
    unfold GetJobStatus, GetJob. cbn [jobs set_jobs].
    rewrite lookup_insert_eq. cbn [fst snd Job_Status].
    change (String.eqb StatusQueued StatusCompleted) with false. cbv iota.
    do 11 (split; [reflexivity || (intros id Hne; by rewrite lookup_insert_ne)|]).
    split.
    2:{ intros acts w Hdb.
        edestruct (run_kept json_Marshal acts w jobID) as (j2 & Hj2 & Hid & Hsrc & _).
        { rewrite Hdb. cbn [jobs set_jobs]. apply lookup_insert_eq. }
        exists j2. by split. }
    intros now' reply fault'. unfold task_step, spawn.
    cbn [task_pc task_jobID spawn_jobID].
    change (loop_head 1) with (AtIncrement 1). cbv iota.
    match goal with |- context [IncrementJobAttempts ?f ?i ?n ?st] =>
      pose proof (IncrementJobAttempts_lookup f i n st) as Hl;
      destruct (IncrementJobAttempts f i n st) as [s1 e1] end.
    cbn [fst snd] in *. rewrite Hl. cbn [jobs set_jobs]. rewrite lookup_insert_eq.
    eexists. split; [reflexivity|]. split.
    + by destruct fault'.
    + by rewrite applied_attempts.
  - by intros msg ->.
Qed.

(** The submission of the scenario into an empty store, the engine
    executing the INSERT. *)
Lemma CreateJob_persists_queued_witness :
  jobs store_empty !! "job1" = None ∧
  (∀ p, (encoder p).2 = None) ∧
  ∃ s' j sp view,
    CreateJob encoder "job1" 10 None request store_empty =
      (s',
       (Some {| CreateJobResponse_JobID := "job1";
                CreateJobResponse_Status := StatusQueued;
                CreateJobResponse_PollURL := "/api/v1/job-status/" +:+ "job1" |},
        None),
       Some sp) ∧
    spawn_jobID sp = "job1" ∧
    GetJob "job1" s' = (s', (Some j, None)) ∧
    Job_ID j = "job1" ∧
    Job_SourceURL j = CreateJobRequest_SourceURL request ∧
    Job_Status j = StatusQueued ∧
    Job_Attempts j = 0 ∧
    Job_ErrorMessage j = None ∧
    GetJobStatus "job1" s' = (s', (Some view, None)) ∧
    JobStatusResponse_Status view = StatusQueued ∧
    (∀ id, id ≠ "job1" → jobs s' !! id = jobs store_empty !! id) ∧
    ringtones s' = ringtones store_empty.
Proof.
  assert (H1 : jobs store_empty !! "job1" = None) by reflexivity.
  assert (H2 : ∀ p, (encoder p).2 = None) by reflexivity.
  split; [exact H1|]. split; [exact H2|].
  destruct (proj1 (CreateJob_persists_queued encoder "job1" 10 None request
                     store_empty H1 H2) eq_refl)
    as (s' & j & sp & view & E1 & E2 & E3 & E4 & E5 & E6 & E7 & E8 & E9 & E10 & E11
        & E12 & _ & _).
  exists s', j, sp, view. repeat split; assumption.
Defined.


(** * Further properties of the code *)

Import n8n config bookkeeping.

(** ** The store *)

Lemma set_jobs_same s : set_jobs s (jobs s) = s.
Proof. by destruct s. Qed.

Lemma alter_absent {A} (f : A → A) (m : gmap string A) id :
  m !! id = None → alter f id m = m.
Proof.
  intros Hid. apply map_eq. intros k.
  destruct (decide (k = id)) as [->|Hk].
  - by rewrite lookup_alter_eq, Hid.
  - by rewrite lookup_alter_ne.
Qed.

(** X1.  [store.CreateJob] followed by [store.GetJob]: a row the engine
    inserts under a fresh id is read back with the fields given and no
    error message, whatever message the record passed in carried; the rows
    of the other jobs and the records are as before. *)
Lemma store_CreateJob_GetJob job s :
  jobs s !! Job_ID job = None →
  ∃ s', store.CreateJob None job s = (s', None) ∧
    (GetJob (Job_ID job) s').2 =
      (Some {| Job_ID := Job_ID job;
               Job_SourceURL := Job_SourceURL job;
               Job_UserID := Job_UserID job;
               Job_Status := Job_Status job;
               Job_CreatedAt := Job_CreatedAt job;
               Job_UpdatedAt := Job_UpdatedAt job;
               Job_Attempts := Job_Attempts job;
               Job_N8NPayload := Job_N8NPayload job;
               Job_ErrorMessage := None |}, None) ∧
    (∀ id, id ≠ Job_ID job → (GetJob id s').2 = (GetJob id s).2) ∧
    ringtones s' = ringtones s.
Proof.
  intros Hfresh. unfold store.CreateJob. rewrite Hfresh.
  eexists. split; [reflexivity|]. unfold GetJob. cbn.
  split; [by rewrite lookup_insert_eq|].
  split; [|reflexivity].
  intros id Hid. by rewrite lookup_insert_ne.
Qed.

Lemma store_CreateJob_GetJob_witness :
  ∃ s', store.CreateJob None job_completed store_empty = (s', None) ∧
    (GetJob "job1" s').2 = (Some job_completed, None).
Proof.
  destruct (store_CreateJob_GetJob job_completed store_empty) as (s' & H1 & H2 & _).
  - reflexivity.
  - exists s'. split; [exact H1|exact H2].
Defined.

(** X2.  The two UPDATE statements on an id that is not in the table:
    [UpdateJobStatus] and [IncrementJobAttempts] leave the store as it is,
    and report no error when the engine executes them. *)
Lemma store_updates_ignore_unknown_job fault id status errorMessage now s :
  jobs s !! id = None →
  (UpdateJobStatus fault id status errorMessage now s).1 = s ∧
  (IncrementJobAttempts fault id now s).1 = s ∧
  UpdateJobStatus None id status errorMessage now s = (s, None) ∧
  IncrementJobAttempts None id now s = (s, None).
Proof.
  intros Hid. unfold UpdateJobStatus, IncrementJobAttempts.
  rewrite !alter_absent by done. rewrite set_jobs_same. by destruct fault.
Qed.

Lemma store_updates_ignore_unknown_job_witness :
  (UpdateJobStatus None "job2" StatusFailed None 30 store_completed).1 = store_completed ∧
  (IncrementJobAttempts None "job2" 30 store_completed).1 = store_completed ∧
  UpdateJobStatus None "job2" StatusFailed None 30 store_completed = (store_completed, None) ∧
  IncrementJobAttempts None "job2" 30 store_completed = (store_completed, None).
Proof. apply store_updates_ignore_unknown_job. reflexivity. Defined.

Lemma isValidURL_nonempty url : isValidURL url = true → String.eqb url "" = false.
Proof. by destruct url. Qed.

(** X3.  A submission whose identifier is already the key of a job: the
    handler answers 500 JOB_CREATION_ERROR, the store is unchanged and no
    retry loop is started, whatever the engine answers. *)
Lemma handleCreateRingtone_duplicate_id json_Marshal jobID now fault req s :
  isValidURL (CreateJobRequest_SourceURL req) = true →
  is_Some (jobs s !! jobID) →
  handleCreateRingtone json_Marshal jobID now fault (Some req) s =
    (s, writeError "Failed to create job" "JOB_CREATION_ERROR" StatusInternalServerError,
     None).
Proof.
  intros Hurl [j Hj]. unfold handleCreateRingtone.
  rewrite (isValidURL_nonempty _ Hurl), Hurl. cbn [negb].
  unfold CreateJob. destruct (json_Marshal _) as [payloadStr [err|]]; [done|].
  unfold store.CreateJob. destruct fault; [done|]. cbn [Job_ID]. by rewrite Hj.
Qed.

Lemma handleCreateRingtone_duplicate_id_witness :
  handleCreateRingtone encoder "job1" 30 None (Some request) store_completed =
    (store_completed,
     writeError "Failed to create job" "JOB_CREATION_ERROR" StatusInternalServerError,
     None).
Proof.
  apply handleCreateRingtone_duplicate_id.
  - reflexivity.
  - vm_compute. eauto.
Defined.






(** ** The routes *)

Lemma GetJobStatus_unknown jobID s :
  jobs s !! jobID = None → GetJobStatus jobID s = (s, (None, Some "job not found")).
Proof. intros Hid. unfold GetJobStatus, GetJob. by rewrite Hid. Qed.

Lemma GetJobStatus_known jobID s j :
  jobs s !! jobID = Some j →
  GetJobStatus jobID s =
    (s, (Some {| JobStatusResponse_JobID := Job_ID j;
                 JobStatusResponse_Status := Job_Status j;
                 JobStatusResponse_CreatedAt := Job_CreatedAt j;
                 JobStatusResponse_UpdatedAt := Job_UpdatedAt j;
                 JobStatusResponse_DownloadURL :=
                   if String.eqb (Job_Status j) StatusCompleted
                   then (λ r, "/download/" +:+ Ringtone_FileName r) <$>
                          head (ringtones_of jobID s)
                   else None;
                 JobStatusResponse_Error := Job_ErrorMessage j |}, None)).
Proof.
  intros Hid. unfold GetJobStatus, GetJob. rewrite Hid.
  destruct (String.eqb _ _); [|done].
  unfold GetRingtoneByJobID. by destruct (head _).
Qed.

(** X5.  [handleJobStatus]: an empty identifier is answered 400, an
    identifier that is not the key of a job 404 JOB_NOT_FOUND (the text of
    the manager's error contains the words the handler looks for), and a
    known job is answered with its stored status, a download address being
    present only for a completed job; the store is never written. *)
Lemma handleJobStatus_answers jobID s :
  match handleJobStatus jobID s with
  | (s', Refused r) =>
      s' = s ∧
      ((jobID = "" ∧ r = writeError "Job ID is required" "MISSING_JOB_ID" StatusBadRequest) ∨
       (jobID ≠ "" ∧ jobs s !! jobID = None ∧
        r = writeError "Job not found" "JOB_NOT_FOUND" StatusNotFound))
  | (s', Done response) =>
      s' = s ∧ jobID ≠ "" ∧
      ∃ j resp, jobs s !! jobID = Some j ∧ response = Some resp ∧
        JobStatusResponse_Status resp = Job_Status j ∧
        JobStatusResponse_Error resp = Job_ErrorMessage j ∧
        (is_Some (JobStatusResponse_DownloadURL resp) → Job_Status j = StatusCompleted)
  end.
Proof.
  unfold handleJobStatus. destruct (String.eqb_spec jobID "") as [->|Hne].
  { split; [done|]. by left. }
  destruct (jobs s !! jobID) as [j|] eqn:Hj.
  - rewrite (GetJobStatus_known _ _ _ Hj). split; [done|]. split; [done|].
    eexists _, _. split; [done|]. split; [done|]. cbn. split; [done|]. split; [done|].
    destruct (String.eqb_spec (Job_Status j) StatusCompleted); [done|].
    by intros [? ?].
  - rewrite (GetJobStatus_unknown _ _ Hj). cbn. split; [done|]. by right.
Qed.

(** What a call of [HandleCallback] that returns an error has written:
    nothing, but for the record of a completion report whose status write
    the engine has refused. *)
Lemma HandleCallback_refused req now fault_insert fault_status s s' err :
  HandleCallback req now fault_insert fault_status s = (s', Some err) →
  s' = s ∨
  (fault_insert = None ∧ fault_status ≠ None ∧
   CallbackRequest_Status req = StatusCompleted ∧
   ∃ j fp,
     jobs s !! CallbackRequest_JobID req = Some j ∧
     CallbackRequest_FilePath req = Some fp ∧
     s' = {| jobs := jobs s;
             ringtones := ringtones s ++
               [record_of s (CallbackRequest_JobID req) fp
                  (int_of_float64 <$>
                     metadata_float64 (CallbackRequest_Metadata req) "duration")
                  now];
             ringtones_seq := ringtones_seq s + 1;
             foreign_keys := foreign_keys s |}).
Proof.
  destruct (jobs s !! CallbackRequest_JobID req) as [j|] eqn:Hj.
  2:{ rewrite HandleCallback_unknown_job by done. intros [= <- _]. by left. }
  destruct (decide (CallbackRequest_Status req = StatusCompleted)) as [Hc|Hc].
  - destruct (CallbackRequest_FilePath req) as [fp|] eqn:Hfp.
    2:{ rewrite (HandleCallback_no_file_path _ _ _ _ _ j) by done.
        intros [= <- _]. by left. }
    destruct fault_insert as [mi|].
    { rewrite (HandleCallback_insert_refused _ _ _ j fp) by done.
      intros [= <- _]. by left. }
    destruct fault_status as [ms|].
    + rewrite (HandleCallback_half _ _ _ j fp) by done. intros [= <- _].
      right. split; [done|]. split; [done|]. split; [done|]. by exists j, fp.
    + by rewrite (HandleCallback_completed _ _ _ j fp) by done.
  - destruct (decide (CallbackRequest_Status req = StatusFailed)) as [Hf|Hf].
    + destruct fault_status as [ms|].
      * rewrite (HandleCallback_failed_refused _ _ _ j) by done.
        intros [= <- _]. by left.
      * by rewrite (HandleCallback_failed _ _ _ j) by done.
    + rewrite (HandleCallback_unknown_status _ _ _ _ _ j) by done.
      intros [= <- _]. by left.
Qed.

Lemma HandleCallback_accepted_iff req now fault_insert fault_status s :
  (∃ s', HandleCallback req now fault_insert fault_status s = (s', None)) ↔
  is_Some (jobs s !! CallbackRequest_JobID req) ∧
  fault_status = None ∧
  (CallbackRequest_Status req = StatusFailed ∨
   (CallbackRequest_Status req = StatusCompleted ∧
    is_Some (CallbackRequest_FilePath req) ∧ fault_insert = None)).
Proof.
  destruct (jobs s !! CallbackRequest_JobID req) as [j|] eqn:Hj.
  2:{ rewrite HandleCallback_unknown_job by done.
      split; [by intros [? ?]|]. by intros [[? ?] _]. }
  destruct (decide (CallbackRequest_Status req = StatusCompleted)) as [Hc|Hc].
  - destruct (CallbackRequest_FilePath req) as [fp|] eqn:Hfp.
    2:{ rewrite (HandleCallback_no_file_path _ _ _ _ _ j) by done.
        split; [by intros [? ?]|]. intros (_ & _ & [Hf|(_ & [? ?] & _)]); [|done].
        by rewrite Hc in Hf. }
    destruct fault_insert as [mi|].
    { rewrite (HandleCallback_insert_refused _ _ _ j fp) by done.
      split; [by intros [? ?]|]. intros (_ & _ & [Hf|(_ & _ & ?)]); [|done].
      by rewrite Hc in Hf. }
    destruct fault_status as [ms|].
    + rewrite (HandleCallback_half _ _ _ j fp) by done.
      split; [by intros [? ?]|]. by intros (_ & ? & _).
    + rewrite (HandleCallback_completed _ _ _ j fp) by done.
      split; [|eauto]. intros _. split; [eauto|]. split; [done|]. right. eauto.
  - destruct (decide (CallbackRequest_Status req = StatusFailed)) as [Hf|Hf].
    + destruct fault_status as [ms|].
      * rewrite (HandleCallback_failed_refused _ _ _ j) by done.
        split; [by intros [? ?]|]. by intros (_ & ? & _).
      * rewrite (HandleCallback_failed _ _ _ j) by done.
        split; [|eauto]. intros _. split; [eauto|]. split; [done|]. by left.
    + rewrite (HandleCallback_unknown_status _ _ _ _ _ j) by done.
      split; [by intros [? ?]|]. by intros (_ & _ & [?|(? & _)]).
Qed.

(** X6.  [handleN8NCallback] answers 200 exactly when the token is the
    configured secret and is not empty, the body decodes, its job id is not
    empty and is the key of a job, the report is a failure, or a completion
    that names a file, and the engine executes the writes of the report. *)
Lemma handleN8NCallback_accepts_iff WebhookSecret token body now
    fault_insert fault_status s :
  (∃ s', handleN8NCallback WebhookSecret token body now fault_insert fault_status s
           = (s', Done (StatusOK, callback_ok))) ↔
  token ≠ "" ∧ token = WebhookSecret ∧
  ∃ req, body = Some req ∧
    CallbackRequest_JobID req ≠ "" ∧
    is_Some (jobs s !! CallbackRequest_JobID req) ∧
    fault_status = None ∧
    (CallbackRequest_Status req = StatusFailed ∨
     (CallbackRequest_Status req = StatusCompleted ∧
      is_Some (CallbackRequest_FilePath req) ∧ fault_insert = None)).
Proof.
  unfold handleN8NCallback.
  destruct (String.eqb_spec token "") as [Ht|Ht].
  { split; [by intros [? ?]|]. by intros [? _]. }
  destruct (String.eqb_spec token WebhookSecret) as [Hs|Hs]; cbn [negb].
  2:{ split; [by intros [? ?]|]. by intros (_ & ? & _). }
  destruct body as [req|].
  2:{ split; [by intros [? ?]|]. by intros (_ & _ & ? & ? & _). }
  destruct (String.eqb_spec (CallbackRequest_JobID req) "") as [Hid|Hid].
  { split; [by intros [? ?]|]. intros (_ & _ & ? & [= <-] & ? & _). done. }
  destruct (String.eqb_spec (CallbackRequest_Status req) "") as [Hst|Hst].
  { split; [by intros [? ?]|].
    intros (_ & _ & ? & [= <-] & _ & _ & _ & [Hf|[Hc _]]).
    - by rewrite Hst in Hf.
    - by rewrite Hst in Hc. }
  destruct (HandleCallback req now fault_insert fault_status s) as [s1 [err|]] eqn:Hcb.
  - split; [by intros [? ?]|]. intros (_ & _ & ? & [= <-] & _ & Hj & Hfs & Hrep).
    destruct (proj2 (HandleCallback_accepted_iff req now fault_insert fault_status s)
                (conj Hj (conj Hfs Hrep))) as [s' Hs'].
    congruence.
  - split; [|eauto]. intros _. split; [done|]. split; [done|].
    exists req. split; [done|]. split; [done|].
    apply (HandleCallback_accepted_iff req now fault_insert fault_status s). eauto.
Qed.

(** X7.  What a callback that [handleN8NCallback] refuses has written.  It
    has changed no row of a job, and the store is the one before the
    request, with one exception: the 500 of a completion report whose
    record the engine has inserted and whose status write it has then
    refused leaves that one record behind. *)
Lemma handleN8NCallback_refused_unchanged WebhookSecret token body now
    fault_insert fault_status s s' r :
  handleN8NCallback WebhookSecret token body now fault_insert fault_status s
    = (s', Refused r) →
  jobs s' = jobs s ∧
  (s' = s ∨
   (fault_insert = None ∧ fault_status ≠ None ∧
    r = writeError "Failed to process callback" "CALLBACK_ERROR"
          StatusInternalServerError ∧
    ∃ req rec, body = Some req ∧
      CallbackRequest_Status req = StatusCompleted ∧
      Ringtone_JobID rec = CallbackRequest_JobID req ∧
      ringtones s' = ringtones s ++ [rec])).
Proof.
  unfold handleN8NCallback.
  destruct (String.eqb token ""); [intros [= <- _]; by split; [|left]|].
  destruct (String.eqb token WebhookSecret); cbn [negb];
    [|intros [= <- _]; by split; [|left]].
  destruct body as [req|]; [|intros [= <- _]; by split; [|left]].
  destruct (String.eqb (CallbackRequest_JobID req) "");
    [intros [= <- _]; by split; [|left]|].
  destruct (String.eqb (CallbackRequest_Status req) "");
    [intros [= <- _]; by split; [|left]|].
  destruct (HandleCallback req now fault_insert fault_status s) as [s1 [err|]] eqn:Hcb;
    [|done].
  intros [= <- <-].
  destruct (HandleCallback_refused _ _ _ _ _ _ _ Hcb)
    as [->|(Hi & Hs & Hc & j & fp & Hj & Hfp & ->)]; [by split; [|left]|].
  split; [done|]. right. split; [done|]. split; [done|]. split; [done|].
  eexists req, _. split; [done|]. split; [done|]. split; [|reflexivity]. done.
Qed.

Lemma handleN8NCallback_refused_unchanged_witness :
  jobs (handleN8NCallback "secret" "secret" (Some report_completed) 20 None locked
          store_processing).1 = jobs store_processing ∧
  ((handleN8NCallback "secret" "secret" (Some report_completed) 20 None locked
      store_processing).1 = store_processing ∨
   ((None : error) = None ∧ locked ≠ None ∧
    writeError "Failed to process callback" "CALLBACK_ERROR" StatusInternalServerError =
      writeError "Failed to process callback" "CALLBACK_ERROR" StatusInternalServerError ∧
    ∃ req rec, Some report_completed = Some req ∧
      CallbackRequest_Status req = StatusCompleted ∧
      Ringtone_JobID rec = CallbackRequest_JobID req ∧
      ringtones (handleN8NCallback "secret" "secret" (Some report_completed) 20 None
                   locked store_processing).1 = ringtones store_processing ++ [rec])).
Proof.
  apply (handleN8NCallback_refused_unchanged "secret" "secret" (Some report_completed)
           20 None locked store_processing _
           (writeError "Failed to process callback" "CALLBACK_ERROR"
              StatusInternalServerError)).
  reflexivity.
Defined.

(** X8.  An authenticated, well-formed callback about a job that is not in
    the store, with a status other than [completed] and [failed], or
    reporting a completion without a file, is answered
    500 CALLBACK_ERROR and writes nothing, whatever the engine answers: the
    handler does not tell these faults of the request from a fault of the
    server. *)
Lemma handleN8NCallback_bad_report_is_500 WebhookSecret req now
    fault_insert fault_status s :
  WebhookSecret ≠ "" →
  CallbackRequest_JobID req ≠ "" →
  CallbackRequest_Status req ≠ "" →
  jobs s !! CallbackRequest_JobID req = None ∨
  (CallbackRequest_Status req ≠ StatusCompleted ∧
   CallbackRequest_Status req ≠ StatusFailed) ∨
  (CallbackRequest_Status req = StatusCompleted ∧
   CallbackRequest_FilePath req = None) →
  handleN8NCallback WebhookSecret WebhookSecret (Some req) now fault_insert fault_status s =
    (s, Refused (writeError "Failed to process callback" "CALLBACK_ERROR"
                   StatusInternalServerError)).
Proof.
  intros Hsec Hid Hst Hbad. unfold handleN8NCallback.
  destruct (String.eqb_spec WebhookSecret ""); [done|].
  rewrite String.eqb_refl. cbn [negb].
  destruct (String.eqb_spec (CallbackRequest_JobID req) ""); [done|].
  destruct (String.eqb_spec (CallbackRequest_Status req) ""); [done|].
  destruct (jobs s !! CallbackRequest_JobID req) as [j|] eqn:Hj.
  2:{ by rewrite HandleCallback_unknown_job by done. }
  destruct Hbad as [Hno|[[Hc Hf]|[Hc Hfile]]]; [done| |].
  - by rewrite (HandleCallback_unknown_status _ _ _ _ _ j) by done.
  - by rewrite (HandleCallback_no_file_path _ _ _ _ _ j) by done.
Qed.

Lemma handleN8NCallback_bad_report_is_500_witness :
  handleN8NCallback "secret" "secret" (Some report_no_file) 30 None None store_processing =
    (store_processing,
     Refused (writeError "Failed to process callback" "CALLBACK_ERROR"
                StatusInternalServerError)).
Proof.
  apply handleN8NCallback_bad_report_is_500; [done|done|done|].
  right. right. split; reflexivity.
Defined.


Lemma head_filter_Some {A} (P : A → Prop) `{!∀ x, Decision (P x)} (l : list A) x :
  head (filter P l) = Some x → x ∈ l ∧ P x.
Proof.
  intros Hx. apply head_Some_elem_of in Hx.
  by apply list_elem_of_filter in Hx as [? ?].
Qed.

Lemma handleDownload_Done filename s r j :
  filename ≠ "" →
  head (ringtones_named filename s) = Some r →
  jobs s !! Ringtone_JobID r = Some j →
  Job_Status j = StatusCompleted →
  handleDownload filename s = (s, Done filename).
Proof.
  intros Hf Hr Hj Hc. unfold handleDownload, GetRingtoneByFileName, GetJob.
  destruct (String.eqb_spec filename ""); [done|].
  rewrite Hr, Hj, Hc. reflexivity.
Qed.

(** X10.  From [GetJobStatus] to [handleDownload]: when no record has an
    empty file name and no two jobs have a record of the same file name,
    the address a poll gives for a job is [/download/] followed by a file
    name that [handleDownload] accepts. *)
Lemma download_address_is_served jobID s resp url :
  (∀ r, r ∈ ringtones s → Ringtone_FileName r ≠ "") →
  (∀ r1 r2, r1 ∈ ringtones s → r2 ∈ ringtones s →
     Ringtone_FileName r1 = Ringtone_FileName r2 →
     Ringtone_JobID r1 = Ringtone_JobID r2) →
  GetJobStatus jobID s = (s, (Some resp, None)) →
  JobStatusResponse_DownloadURL resp = Some url →
  ∃ filename, url = "/download/" +:+ filename ∧
    handleDownload filename s = (s, Done filename).
Proof.
  intros Hnames Huniq Hpoll Hurl.
  destruct (jobs s !! jobID) as [j|] eqn:Hj.
  2:{ by rewrite (GetJobStatus_unknown _ _ Hj) in Hpoll. }
  rewrite (GetJobStatus_known _ _ _ Hj) in Hpoll.
  injection Hpoll as <-. cbn in Hurl.
  destruct (String.eqb_spec (Job_Status j) StatusCompleted) as [Hc|]; [|done].
  destruct (head (ringtones_of jobID s)) as [r|] eqn:Hr; [|done].
  injection Hurl as <-.
  apply head_filter_Some in Hr as [Hr Hrj].
  exists (Ringtone_FileName r). split; [done|].
  assert (∃ r', head (ringtones_named (Ringtone_FileName r) s) = Some r') as [r' Hr'].
  { unfold ringtones_named.
    destruct (filter _ (ringtones s)) as [|r' l] eqn:Hfil; [|by exists r'].
    exfalso. eapply (filter_nil_not_elem_of _ _ r Hfil); [reflexivity|done]. }
  pose proof Hr' as [Hin' Hname']%head_filter_Some.
  assert (Ringtone_JobID r' = jobID) as Hjob'.
  { rewrite <-Hrj. by apply Huniq. }
  apply (handleDownload_Done _ s r' j); [by apply Hnames|done|by rewrite Hjob'|done].
Qed.

Lemma download_address_is_served_witness :
  ∃ filename, "/download/job1.mp3" = "/download/" +:+ filename ∧
    handleDownload filename store_completed = (store_completed, Done filename).
Proof.
  eapply (download_address_is_served "job1" store_completed).
  - intros r ->%list_elem_of_singleton. done.
  - intros r1 r2 ->%list_elem_of_singleton ->%list_elem_of_singleton. done.
  - reflexivity.
  - reflexivity.
Defined.

(** ** Configuration and the shared secret *)

Lemma getEnv_nonempty environ key defaultValue :
  defaultValue ≠ "" → getEnv environ key defaultValue ≠ "".
Proof.
  intros Hdef. unfold getEnv.
  by destruct (String.eqb_spec (Getenv environ key) "").
Qed.

(** X11.  [getEnv] gives the default both for a variable that is not set
    and for one set to the empty string, and the value of the variable
    otherwise; every setting of [Load] is therefore non-empty, whatever the
    environment. *)
Lemma Load_never_empty environ :
  (∀ key defaultValue,
     getEnv environ key defaultValue =
       match environ !! key with
       | Some value => if decide (value = "") then defaultValue else value
       | None => defaultValue
       end) ∧
  Port (Load environ) ≠ "" ∧ DBPath (Load environ) ≠ "" ∧
  StoragePath (Load environ) ≠ "" ∧ N8NWebhookURL (Load environ) ≠ "" ∧
  N8NWebhookSecret (Load environ) ≠ "" ∧ LogLevel (Load environ) ≠ "".
Proof.
  split.
  - intros key defaultValue. unfold getEnv, Getenv.
    destruct (environ !! key) as [value|]; cbn; [|done].
    destruct (String.eqb_spec value ""); by destruct (decide _).
  - repeat split; by apply getEnv_nonempty.
Qed.

(** X12.  With an empty configured secret [handleN8NCallback] lets no
    request through: every token, the empty one included, is answered 401
    and the store is not touched. *)
Lemma handleN8NCallback_empty_secret token body now fault_insert fault_status s :
  ∃ r, handleN8NCallback "" token body now fault_insert fault_status s = (s, Refused r) ∧
    Response_StatusCode r = StatusUnauthorized.
Proof.
  unfold handleN8NCallback.
  destruct (String.eqb_spec token "") as [->|Hne]; [by eexists|].
  by eexists.
Qed.

(** X13.  The secret of the configuration is both the token the client
    puts into the request to the webhook and the token the callback route
    compares with.  Whatever the environment, a callback carrying the token
    of a webhook request is not turned away for its token: it is answered
    as [HandleCallback] decides, provided its body decodes and names a job
    and a status. *)
Lemma webhook_token_opens_callback environ payload jsonData req now
    fault_insert fault_status s :
  let cfg := Load environ in
  let request :=
    webhook_request (N8NWebhookURL cfg) (N8NWebhookSecret cfg) payload jsonData in
  CallbackRequest_JobID req ≠ "" →
  CallbackRequest_Status req ≠ "" →
  ∃ token, Request_Header request !! "X-Webhook-Token" = Some token ∧
    VerifyWebhookSignature (N8NWebhookSecret cfg) token = true ∧
    handleN8NCallback (N8NWebhookSecret cfg) token (Some req) now
      fault_insert fault_status s =
      match HandleCallback req now fault_insert fault_status s with
      | (s1, Some err) =>
          (s1, Refused (writeError "Failed to process callback" "CALLBACK_ERROR"
                          StatusInternalServerError))
      | (s1, None) => (s1, Done (StatusOK, callback_ok))
      end.
Proof.
  intros cfg request Hid Hst. exists (N8NWebhookSecret cfg).
  split; [reflexivity|]. split; [apply String.eqb_refl|].
  unfold handleN8NCallback.
  destruct (String.eqb_spec (N8NWebhookSecret cfg) "") as [He|_].
  { by apply getEnv_nonempty in He. }
  rewrite String.eqb_refl. cbn [negb].
  destruct (String.eqb_spec (CallbackRequest_JobID req) ""); [done|].
  by destruct (String.eqb_spec (CallbackRequest_Status req) "").
Qed.

Lemma webhook_token_opens_callback_witness :
  ∃ token,
    Request_Header
      (webhook_request (N8NWebhookURL (Load ∅)) (N8NWebhookSecret (Load ∅)) payload "{}")
      !! "X-Webhook-Token" = Some token ∧
    VerifyWebhookSignature (N8NWebhookSecret (Load ∅)) token = true ∧
    handleN8NCallback (N8NWebhookSecret (Load ∅)) token (Some report_completed) 20
      None None store_processing =
      match HandleCallback report_completed 20 None None store_processing with
      | (s1, Some err) =>
          (s1, Refused (writeError "Failed to process callback" "CALLBACK_ERROR"
                          StatusInternalServerError))
      | (s1, None) => (s1, Done (StatusOK, callback_ok))
      end.
Proof.
  apply (webhook_token_opens_callback ∅ payload "{}" report_completed 20 None None);
    done.
Defined.

(** ** The job manager *)

(** X14.  [Manager.CreateJob], whatever the engine answers, either fails,
    and then the store is the one before the call and no retry loop is
    started, or succeeds, and then the
    identifier was fresh, the job is in the store and one loop is started
    for it, whose payload names the job and the source of the request and
    has a format that is not empty: the one requested, or mp3 when the
    request gave none. *)
Lemma CreateJob_outcome json_Marshal jobID now fault req s :
  match CreateJob json_Marshal jobID now fault req s with
  | (s', (Some resp, None), Some sp) =>
      jobs s !! jobID = None ∧ is_Some (jobs s' !! jobID) ∧
      CreateJobResponse_JobID resp = jobID ∧
      spawn_jobID sp = jobID ∧
      payload_job_id (spawn_payload sp) = jobID ∧
      payload_source_url (spawn_payload sp) = CreateJobRequest_SourceURL req ∧
      JobOptions_Format (payload_options (spawn_payload sp)) ≠ "" ∧
      (∀ o, CreateJobRequest_Options req = Some o →
         JobOptions_Format (payload_options (spawn_payload sp)) =
           if decide (JobOptions_Format o = "") then "mp3" else JobOptions_Format o) ∧
      (CreateJobRequest_Options req = None →
         JobOptions_Format (payload_options (spawn_payload sp)) = "mp3")
  | (s', (None, Some err), None) => s' = s
  | _ => False
  end.
Proof.
  unfold CreateJob. destruct (json_Marshal _) as [payloadStr [err|]]; [done|].
  unfold store.CreateJob. destruct fault; [done|]. cbn [Job_ID].
  destruct (jobs s !! jobID) eqn:Hj; [done|].
  cbn. split; [done|]. split; [by rewrite lookup_insert_eq|].
  do 4 (split; [done|]). split; [|split].
  - destruct (CreateJobRequest_Options req) as [o|]; cbn; [|done].
    by destruct (String.eqb_spec (JobOptions_Format o) "").
  - intros o ->. destruct (String.eqb_spec (JobOptions_Format o) "");
      by destruct (decide _).
  - by intros ->.
Qed.

Lemma UpdateJobStatus_seq fault id status msg now s :
  ringtones_seq (UpdateJobStatus fault id status msg now s).1 = ringtones_seq s.
Proof. by destruct fault. Qed.

Lemma IncrementJobAttempts_seq fault id now s :
  ringtones_seq (IncrementJobAttempts fault id now s).1 = ringtones_seq s.
Proof. by destruct fault. Qed.

Ltac loop_cases env :=
  unfold triggerN8NWorkflow; change (Z.to_nat maxAttempts) with 3%nat;
  destruct (webhook (env 1)) eqn:H1;
    [destruct (webhook (env 2)) eqn:H2;
       [change 3 with maxAttempts in *;
        destruct (webhook (env maxAttempts)) eqn:H3; do 3 turn
       |do 2 turn]
    |turn].

(** X15.  Whatever the webhook answers, [triggerN8NWorkflow] returns, and
    it has written to the row of its own job only: the records, their
    counter and the rows of the other jobs are as before, and it has
    neither created nor removed a job. *)
Lemma triggerN8NWorkflow_frame jobID payload env s :
  ∃ s' evs, triggerN8NWorkflow jobID payload env s = Some (s', evs) ∧
    ringtones s' = ringtones s ∧
    ringtones_seq s' = ringtones_seq s ∧
    (∀ id, id ≠ jobID → jobs s' !! id = jobs s !! id) ∧
    (is_Some (jobs s' !! jobID) ↔ is_Some (jobs s !! jobID)).
Proof.
  loop_cases env; (eexists _, _; split; [reflexivity|]);
    (split; [by rewrite UpdateJobStatus_ringtones, !IncrementJobAttempts_ringtones|]);
    (split; [by rewrite UpdateJobStatus_seq, !IncrementJobAttempts_seq|]); (split;
    [intros id Hid;
     rewrite UpdateJobStatus_lookup_ne by done;
     by rewrite !IncrementJobAttempts_lookup_ne by done
    |rewrite UpdateJobStatus_lookup, !IncrementJobAttempts_lookup;
     rewrite !fmap_is_Some; done]).
Qed.

(** X16.  Whatever the webhook answers, [triggerN8NWorkflow] calls it at
    least once and at most three times, the calls being numbered from 1,
    and sleeps only between two calls: one, then two seconds, so never more
    than three seconds in all. *)
Lemma triggerN8NWorkflow_bounded jobID payload env s :
  ∃ s' k, (1 ≤ k ≤ maxAttempts)%Z ∧
    triggerN8NWorkflow jobID payload env s = Some (s', trace_until k payload) ∧
    webhook_calls (trace_until k payload) = seqZ 1 k ∧
    total_sleep (trace_until k payload) = baseDelay * (2 ^ (k - 1) - 1) ∧
    (total_sleep (trace_until k payload) ≤ 3 * baseDelay)%Z.
Proof.
  loop_cases env.
  - eexists _, 3. split; [done|]. split; [reflexivity|]. by vm_compute.
  - eexists _, 3. split; [done|]. split; [reflexivity|]. by vm_compute.
  - eexists _, 2. split; [done|]. split; [reflexivity|]. by vm_compute.
  - eexists _, 1. split; [done|]. split; [reflexivity|]. by vm_compute.
Qed.

(** X17.  When the call of turn [k] is the first the webhook accepts and
    the engine executes the writes of the loop, the loop stops there: [k]
    calls and the sleeps between them, the job in [processing] with no
    error message, its counter raised by [k] and its update time that of
    the last write. *)
Lemma triggerN8NWorkflow_accepted_at k jobID payload env s j :
  (1 ≤ k ≤ maxAttempts)%Z →
  jobs s !! jobID = Some j →
  (∀ i, (1 ≤ i < k)%Z → webhook (env i) ≠ None) →
  webhook (env k) = None →
  (∀ i, (1 ≤ i ≤ k)%Z → fault_increment (env i) = None) →
  fault_update (env k) = None →
  ∃ s' j', triggerN8NWorkflow jobID payload env s = Some (s', trace_until k payload) ∧
    jobs s' !! jobID = Some j' ∧
    Job_Status j' = StatusProcessing ∧
    Job_ErrorMessage j' = None ∧
    Job_Attempts j' = Job_Attempts j + k ∧
    Job_UpdatedAt j' = at_update (env k) ∧
    Job_SourceURL j' = Job_SourceURL j.
Proof.
  intros Hk Hj Hbefore Hk_ok Hinc Hupd.
  assert (k = 1 ∨ k = 2 ∨ k = 3) as [-> | [-> | ->]] by (unfold maxAttempts in Hk; lia);
    unfold triggerN8NWorkflow; change (Z.to_nat maxAttempts) with 3%nat.
  - turn. eexists _, _. split; [reflexivity|].
    rewrite UpdateJobStatus_lookup, !IncrementJobAttempts_lookup, Hj.
    rewrite Hupd, (Hinc 1) by lia. cbn.
    split; [reflexivity|]. repeat split; try reflexivity; cbn; lia.
  - destruct (webhook (env 1)) eqn:H1; [|by destruct (Hbefore 1)].
    do 2 turn. eexists _, _. split; [reflexivity|].
    rewrite UpdateJobStatus_lookup, !IncrementJobAttempts_lookup, Hj.
    rewrite Hupd, (Hinc 1), (Hinc 2) by lia. cbn.
    split; [reflexivity|]. repeat split; try reflexivity; cbn; lia.
  - destruct (webhook (env 1)) eqn:H1; [|by destruct (Hbefore 1)].
    destruct (webhook (env 2)) eqn:H2; [|by destruct (Hbefore 2)].
    change 3 with maxAttempts in *.
    do 3 turn. eexists _, _. split; [reflexivity|].
    rewrite UpdateJobStatus_lookup, !IncrementJobAttempts_lookup, Hj.
    rewrite Hupd, (Hinc 1), (Hinc 2), (Hinc maxAttempts) by (unfold maxAttempts; lia).
    cbn.
    split; [reflexivity|]. repeat split; try reflexivity; cbn; unfold maxAttempts; lia.
Qed.

Lemma triggerN8NWorkflow_accepted_at_witness :
  ∃ s' j',
    triggerN8NWorkflow "job1" payload
      (λ k, {| at_increment := 10 + k;
               fault_increment := None;
               webhook := if (k <? 2)%Z then Some "connection refused" else None;
               at_update := 10 + k;
               fault_update := None |}) store_queued
      = Some (s', trace_until 2 payload) ∧
    jobs s' !! "job1" = Some j' ∧
    Job_Status j' = StatusProcessing ∧
    Job_ErrorMessage j' = None ∧
    Job_Attempts j' = 0 + 2 ∧
    Job_UpdatedAt j' = 12 ∧
    Job_SourceURL j' = "https://example.com/v1".
Proof.
  apply (triggerN8NWorkflow_accepted_at 2 "job1" payload
           (λ k, {| at_increment := 10 + k;
                    fault_increment := None;
                    webhook := if (k <? 2)%Z then Some "connection refused" else None;
                    at_update := 10 + k;
                    fault_update := None |}) store_queued job_queued).
  - done.
  - reflexivity.
  - intros i Hi. assert (i = 1) as -> by lia. done.
  - reflexivity.
  - intros i _. reflexivity.
  - reflexivity.
Defined.



(** X19.  A failure report followed by a poll, the engine executing the
    write of the report: the report is accepted whatever the state of the
    job, no record is added or removed, and the
    poll then shows the job in [failed] with the text of the report (the
    string under [error] in its metadata, or the generic text) and no
    download address, even when the job has records. *)
Lemma failed_report_then_poll req now fault_insert s j :
  jobs s !! CallbackRequest_JobID req = Some j →
  CallbackRequest_Status req = StatusFailed →
  ∃ s' resp, HandleCallback req now fault_insert None s = (s', None) ∧
    ringtones s' = ringtones s ∧
    GetJobStatus (CallbackRequest_JobID req) s' = (s', (Some resp, None)) ∧
    JobStatusResponse_Status resp = StatusFailed ∧
    JobStatusResponse_Error resp =
      Some (default "Job failed in n8n workflow"
              (metadata_string (CallbackRequest_Metadata req) "error")) ∧
    JobStatusResponse_DownloadURL resp = None.
Proof.
  intros Hj Hst. rewrite (HandleCallback_failed _ _ _ _ fault_insert Hj Hst).
  eexists _, _. split; [reflexivity|]. split; [reflexivity|].
  erewrite GetJobStatus_known by (cbn [jobs set_jobs]; apply lookup_insert_eq).
  split; [reflexivity|]. by cbn -[metadata_string].
Qed.

Lemma failed_report_then_poll_witness :
  ∃ s' resp, HandleCallback report_failed 30 None None store_completed = (s', None) ∧
    ringtones s' = [ringtone_first] ∧
    GetJobStatus "job1" s' = (s', (Some resp, None)) ∧
    JobStatusResponse_Status resp = StatusFailed ∧
    JobStatusResponse_Error resp = Some "download failed" ∧
    JobStatusResponse_DownloadURL resp = None.
Proof.
  apply (failed_report_then_poll report_failed 30 None store_completed job_completed);
    reflexivity.
Defined.

(** X20.  The client and the loop together: when the payload encodes, the
    request can be built, and the endpoint answers each of the three calls
    with a status code outside 200..299, the loop makes its three calls,
    and when the engine executes its last write the job ends in [failed]
    and its error message names the number of attempts and the code of the
    last answer. *)
Lemma non_2xx_answers_exhaust_the_loop webhookURL secret json_Marshal jobID payload
    (Do : Z → Request → Answer) (clock : Z → Time) (refused : Z → error)
    s j jsonData :
  jobs s !! jobID = Some j →
  json_Marshal payload = (jsonData, None) →
  (∀ k, (1 ≤ k ≤ maxAttempts)%Z →
     ∃ code, Do k (webhook_request webhookURL secret payload jsonData) = StatusCode code ∧
       (code < 200 ∨ 300 ≤ code)%Z) →
  ∃ s' evs j' code,
    triggerN8NWorkflow jobID payload
      (λ k, {| at_increment := clock k;
               fault_increment := refused k;
               webhook := TriggerWebhook webhookURL secret json_Marshal None payload (Do k);
               at_update := clock k;
               fault_update := refused k |}) s = Some (s', evs) ∧
    webhook_calls evs = [1; 2; 3] ∧
    jobs s' !! jobID = Some j' ∧
    Do 3 (webhook_request webhookURL secret payload jsonData) = StatusCode code ∧
    (refused 3 = None →
     Job_Status j' = StatusFailed ∧
     Job_ErrorMessage j' =
       Some ("Failed to trigger n8n after 3 attempts: webhook returned non-2xx status: "
             +:+ pretty code)).
Proof.
  intros Hj Hjson Hdo.
  assert (∀ k, (1 ≤ k ≤ maxAttempts)%Z →
    ∃ code, Do k (webhook_request webhookURL secret payload jsonData) = StatusCode code ∧
      TriggerWebhook webhookURL secret json_Marshal None payload (Do k) =
        Some ("webhook returned non-2xx status: " +:+ pretty code)) as Hfail.
  { intros k Hk. destruct (Hdo k Hk) as (code & Hcode & Hrange).
    exists code. split; [done|]. unfold TriggerWebhook. rewrite Hjson, Hcode.
    destruct (Z.ltb_spec code 200); [done|].
    destruct (Z.geb_spec code 300); [done|lia]. }
  destruct (Hfail 1) as (c1 & _ & H1); [done|].
  destruct (Hfail 2) as (c2 & _ & H2); [done|].
  destruct (Hfail 3) as (c3 & Hc3 & H3); [done|].
  unfold triggerN8NWorkflow. change (Z.to_nat maxAttempts) with 3%nat.
  erewrite retry_from_backoff by (cbn [webhook]; first [exact H1 | done]).
  change (1 + 1) with 2.
  erewrite retry_from_backoff by (cbn [webhook]; first [exact H2 | done]).
  change (2 + 1) with maxAttempts.
  erewrite retry_from_exhausted by (cbn [webhook]; exact H3).
  eexists _, _, _, c3. split; [reflexivity|]. split; [reflexivity|].
  rewrite UpdateJobStatus_lookup, !IncrementJobAttempts_lookup, Hj.
  cbn [fault_update fault_increment at_update at_increment].
  split; [reflexivity|]. split; [exact Hc3|].
  change maxAttempts with 3. intros ->. by split.
Qed.

Lemma non_2xx_answers_exhaust_the_loop_witness :
  ∃ s' evs j' code,
    triggerN8NWorkflow "job1" payload
      (λ k, {| at_increment := 10 + k;
               fault_increment := None;
               webhook := TriggerWebhook "http://n8n:5678/webhook/ringtonic" "secret"
                            encoder None payload (λ _, StatusCode (500 + k));
               at_update := 10 + k;
               fault_update := None |}) store_queued = Some (s', evs) ∧
    webhook_calls evs = [1; 2; 3] ∧
    jobs s' !! "job1" = Some j' ∧
    StatusCode (500 + 3) = StatusCode code ∧
    ((None : error) = None →
     Job_Status j' = StatusFailed ∧
     Job_ErrorMessage j' =
       Some ("Failed to trigger n8n after 3 attempts: webhook returned non-2xx status: "
             +:+ pretty code)).
Proof.
  apply (non_2xx_answers_exhaust_the_loop "http://n8n:5678/webhook/ringtonic" "secret"
           encoder "job1" payload (λ k _, StatusCode (500 + k)) (λ k, 10 + k)
           (λ _, None) store_queued job_queued "{}").
  - reflexivity.
  - reflexivity.
  - intros k Hk. exists (500 + k). split; [reflexivity|]. unfold maxAttempts in Hk. lia.
Defined.

(** ** Invariants of the runs *)

(** X21.  Along any run a job is never removed, and its id, source, user,
    creation time and payload stay what they were; its counter of attempts
    never decreases. *)
Lemma run_keeps_jobs json_Marshal acts w id j :
  jobs (db w) !! id = Some j →
  ∃ j', jobs (db (run json_Marshal acts w)) !! id = Some j' ∧
    Job_ID j' = Job_ID j ∧
    Job_SourceURL j' = Job_SourceURL j ∧
    Job_UserID j' = Job_UserID j ∧
    Job_CreatedAt j' = Job_CreatedAt j ∧
    Job_N8NPayload j' = Job_N8NPayload j ∧
    (Job_Attempts j ≤ Job_Attempts j')%Z.
Proof.
  intros Hj. exact (run_kept json_Marshal acts w id j Hj).
Qed.

Lemma run_keeps_jobs_witness :
  ∃ j', jobs (db (run encoder (Advance 0 11 None None :: delivered 0 report_completed 20)
                    {| db := store_queued;
                       tasks := [{| task_jobID := "job1"; task_payload := payload;
                                    task_pc := AtIncrement 1 |}];
                       handlers := [];
                       events := [] |})) !! "job1" = Some j' ∧
    Job_ID j' = "job1" ∧
    Job_SourceURL j' = "https://example.com/v1" ∧
    Job_UserID j' = None ∧
    Job_CreatedAt j' = 10 ∧
    Job_N8NPayload j' = Some "{}" ∧
    (0 ≤ Job_Attempts j')%Z.
Proof.
  apply (run_keeps_jobs encoder (Advance 0 11 None None :: delivered 0 report_completed 20)
           {| db := store_queued;
              tasks := [{| task_jobID := "job1"; task_payload := payload;
                           task_pc := AtIncrement 1 |}];
              handlers := [];
              events := [] |} "job1" job_queued).
  reflexivity.
Defined.

Lemma run_prefix json_Marshal acts w :
  ringtones (db w) `prefix_of` ringtones (db (run json_Marshal acts w)).
Proof.
  induction acts as [|a acts IH] using rev_ind; [done|].
  rewrite run_snoc. etrans; [exact IH|]. apply write_prefix, step_write.
Qed.

Lemma run_head_kept json_Marshal acts w id r :
  head (ringtones_of id (db w)) = Some r →
  head (ringtones_of id (db (run json_Marshal acts w))) = Some r.
Proof.
  destruct (run_prefix json_Marshal acts w) as [added Hadd].
  unfold ringtones_of. rewrite Hadd, filter_app.
  by destruct (filter _ (ringtones (db w))).
Qed.

(** X22.  The table of records only grows: along any run the records of
    the earlier state are the first records of the later one, unchanged
    and in the same order; the first record of a job stays its first
    record. *)
Lemma run_appends_records json_Marshal acts w :
  ∃ added,
    ringtones (db (run json_Marshal acts w)) = ringtones (db w) ++ added ∧
    (∀ id r, head (ringtones_of id (db w)) = Some r →
       head (ringtones_of id (db (run json_Marshal acts w))) = Some r).
Proof.
  destruct (run_prefix json_Marshal acts w) as [added Hadd].
  exists added. split; [done|]. intros id r. apply run_head_kept.
Qed.

(** X23.  The download address of a job does not change: when two polls
    of the same job, the second after any run from the state of the first,
    both carry an address, it is the same address. *)
Lemma download_address_is_stable json_Marshal acts w jobID resp resp' url url' :
  (GetJobStatus jobID (db w)).2 = (Some resp, None) →
  JobStatusResponse_DownloadURL resp = Some url →
  (GetJobStatus jobID (db (run json_Marshal acts w))).2 = (Some resp', None) →
  JobStatusResponse_DownloadURL resp' = Some url' →
  url' = url.
Proof.
  intros Hp Hu Hp' Hu'.
  destruct (jobs (db w) !! jobID) as [j|] eqn:Hj.
  2:{ by rewrite (GetJobStatus_unknown _ _ Hj) in Hp. }
  rewrite (GetJobStatus_known _ _ _ Hj) in Hp. cbn in Hp.
  injection Hp as <-. cbn in Hu.
  destruct (String.eqb _ _); [|done].
  destruct (head (ringtones_of jobID (db w))) as [r|] eqn:Hr; [|done].
  injection Hu as <-.
  pose proof (run_head_kept json_Marshal acts w jobID r Hr) as Hhead.
  destruct (jobs (db (run json_Marshal acts w)) !! jobID) as [j'|] eqn:Hj'.
  2:{ by rewrite (GetJobStatus_unknown _ _ Hj') in Hp'. }
  rewrite (GetJobStatus_known _ _ _ Hj') in Hp'. cbn in Hp'.
  injection Hp' as <-. cbn in Hu'.
  destruct (String.eqb _ _); [|done].
  rewrite Hhead in Hu'. by injection Hu' as <-.
Qed.

Lemma download_address_is_stable_witness : "/download/job1.mp3" = "/download/job1.mp3".
Proof.
  eapply (download_address_is_stable encoder (delivered 0 report_wav 30)
            {| db := store_completed; tasks := []; handlers := []; events := [] |}
            "job1").
  - reflexivity.
  - reflexivity.
  - reflexivity.
  - reflexivity.
Defined.

Lemma known_status_cases status :
  known_status status ↔
  status = StatusQueued ∨ status = StatusProcessing ∨
  status = StatusCompleted ∨ status = StatusFailed.
Proof.
  unfold known_status. rewrite !elem_of_cons, elem_of_nil. tauto.
Qed.

Lemma write_well_formed s s' :
  write s s' →
  (∀ id j, jobs s !! id = Some j → well_formed_job id j) →
  ∀ id j, jobs s' !! id = Some j → well_formed_job id j.
Proof.
  intros Hw Hwf id j.
  destruct Hw as [|id0 row Hfresh Hid Hq Hatt Herr|id0 now|id0 status msg now Hs
                  |id0 fp d now]; cbn [jobs set_jobs].
  - apply Hwf.
  - destruct (decide (id0 = id)) as [<-|Hne].
    + rewrite lookup_insert_eq. intros [= <-]. split; [done|]. split.
      * apply known_status_cases. by left.
      * rewrite Herr, Hq. split; [by intros [? ?]|done].
    + rewrite lookup_insert_ne by done. apply Hwf.
  - destruct (decide (id0 = id)) as [->|Hne].
    + rewrite lookup_alter_eq.
      destruct (jobs s !! id) as [j1|] eqn:Hj1; [|done].
      intros [= <-]. apply (Hwf id j1 Hj1).
    + rewrite lookup_alter_ne by done. apply Hwf.
  - destruct (decide (id0 = id)) as [->|Hne].
    + rewrite lookup_alter_eq.
      destruct (jobs s !! id) as [j1|] eqn:Hj1; [|done].
      intros [= <-]. destruct (Hwf id j1 Hj1) as (Hid & _ & _).
      split; [done|]. cbn. split.
      * apply known_status_cases. destruct Hs as [[-> _]|[[-> _]|[-> _]]]; tauto.
      * destruct Hs as [[-> ->]|[[-> ->]|[-> Hm]]].
        -- split; [by intros [? ?]|done].
        -- split; [by intros [? ?]|done].
        -- by split.
    + rewrite lookup_alter_ne by done. apply Hwf.
  - apply Hwf.
Qed.

Lemma reachable_well_formed json_Marshal w :
  reachable json_Marshal w →
  ∀ id j, jobs (db w) !! id = Some j → well_formed_job id j.
Proof.
  revert w.
  apply (reachable_invariant json_Marshal
           (λ s, ∀ id j, jobs s !! id = Some j → well_formed_job id j)).
  - intros fk id j. cbn. by rewrite lookup_empty.
  - intros s s' He Hwf. by apply (write_well_formed s s').
Qed.

(** X24.  In every reachable state the row of a job has the key it is
    stored under as its id, a status that is one of [queued],
    [processing], [completed] and [failed], and an error message exactly
    when the status is [failed]. *)
Lemma reachable_jobs_well_formed json_Marshal w id j :
  reachable json_Marshal w →
  jobs (db w) !! id = Some j →
  Job_ID j = id ∧
  (Job_Status j = StatusQueued ∨ Job_Status j = StatusProcessing ∨
   Job_Status j = StatusCompleted ∨ Job_Status j = StatusFailed) ∧
  (is_Some (Job_ErrorMessage j) ↔ Job_Status j = StatusFailed).
Proof.
  intros Hw Hj. destruct (reachable_well_formed _ _ Hw id j Hj) as (? & ? & ?).
  split; [done|]. split; [|done]. by apply known_status_cases.
Qed.

Lemma reachable_jobs_well_formed_witness :
  Job_ID job_completed = "job1" ∧
  (Job_Status job_completed = StatusQueued ∨ Job_Status job_completed = StatusProcessing ∨
   Job_Status job_completed = StatusCompleted ∨ Job_Status job_completed = StatusFailed) ∧
  (is_Some (Job_ErrorMessage job_completed) ↔ Job_Status job_completed = StatusFailed).
Proof.
  apply (reachable_jobs_well_formed encoder
           (run encoder (dispatched ++ delivered 0 report_completed 20) (initial true))).
  - exists true, (dispatched ++ delivered 0 report_completed 20). reflexivity.
  - reflexivity.
Defined.



Lemma write_numbered s s' : write s s' → numbered s → numbered s'.
Proof.
  intros Hw [Hseq Hids]. destruct Hw; try (by split).
  split; cbn [ringtones ringtones_seq].
  - rewrite length_app. cbn. lia.
  - intros i r. rewrite lookup_app_Some. intros [Hi|[Hlen Hi]]; [by apply Hids|].
    apply list_lookup_singleton_Some in Hi as [Hi <-]. cbn. lia.
Qed.

(** X26.  In every reachable state the records are numbered 1, 2, ... in
    the order of their insertion and the counter is their number; no two
    records have the same id. *)
Lemma reachable_records_numbered json_Marshal w :
  reachable json_Marshal w →
  ringtones_seq (db w) = Z.of_nat (length (ringtones (db w))) ∧
  (∀ i r, ringtones (db w) !! i = Some r → Ringtone_ID r = Z.of_nat i + 1) ∧
  (∀ i1 i2 r1 r2,
     ringtones (db w) !! i1 = Some r1 → ringtones (db w) !! i2 = Some r2 →
     Ringtone_ID r1 = Ringtone_ID r2 → i1 = i2).
Proof.
  intros Hw.
  assert (numbered (db w)) as [Hseq Hids].
  { revert w Hw. apply (reachable_invariant json_Marshal numbered).
    - intros fk. split; [done|]. intros i r. cbn. by rewrite lookup_nil.
    - intros s s'. apply write_numbered. }
  split; [done|]. split; [done|].
  intros i1 i2 r1 r2 H1 H2 Heq.
  apply Hids in H1. apply Hids in H2. lia.
Qed.

Lemma reachable_records_numbered_witness :
  let w := run encoder delivered_twice (initial true) in
  ringtones_seq (db w) = Z.of_nat (length (ringtones (db w))) ∧
  (∀ i r, ringtones (db w) !! i = Some r → Ringtone_ID r = Z.of_nat i + 1) ∧
  (∀ i1 i2 r1 r2,
     ringtones (db w) !! i1 = Some r1 → ringtones (db w) !! i2 = Some r2 →
     Ringtone_ID r1 = Ringtone_ID r2 → i1 = i2).
Proof.
  apply (reachable_records_numbered encoder).
  exists true, delivered_twice. reflexivity.
Defined.

(** X27.  In every reachable state each record has the format [mp3], a
    file name equal to its file path, and belongs to a job of the store. *)
Lemma reachable_records_well_formed json_Marshal w r :
  reachable json_Marshal w →
  r ∈ ringtones (db w) →
  Ringtone_Format r = "mp3" ∧
  Ringtone_FileName r = Ringtone_FilePath r ∧
  is_Some (jobs (db w) !! Ringtone_JobID r).
Proof.
  intros Hw Hr.
  assert (Ringtone_Format r = "mp3" ∧ Ringtone_FileName r = Ringtone_FilePath r)
    as [Hf Hn].
  { revert r Hr. revert w Hw.
    apply (reachable_invariant json_Marshal
             (λ s, ∀ r, r ∈ ringtones s →
                Ringtone_Format r = "mp3" ∧
                Ringtone_FileName r = Ringtone_FilePath r)).
    - intros fk r Hr. by apply elem_of_nil in Hr.
    - intros s s' He Hrec r. destruct He; cbn [ringtones set_jobs]; try apply Hrec.
      intros [Hr|Hr]%elem_of_app; [by apply Hrec|].
      by apply list_elem_of_singleton in Hr as ->. }
  do 2 (split; [done|]).
  destruct (reachable_sound json_Marshal w Hw) as [[Hown _] _]. by apply Hown.
Qed.

Lemma reachable_records_well_formed_witness :
  Ringtone_Format ringtone_first = "mp3" ∧
  Ringtone_FileName ringtone_first = Ringtone_FilePath ringtone_first ∧
  is_Some (jobs (db (run encoder delivered_twice (initial true)))
             !! Ringtone_JobID ringtone_first).
Proof.
  apply (reachable_records_well_formed encoder
           (run encoder delivered_twice (initial true)) ringtone_first).
  - exists true, delivered_twice. reflexivity.
  - vm_compute. left.
Defined.

(** ** Every job and its retry loop *)

Lemma counted_similar pc j j' :
  Job_Attempts j' = Job_Attempts j → counted pc j → counted pc j'.
Proof. intros Hatt. unfold counted. by rewrite Hatt. Qed.

Lemma task_step_counted now reply fault t s j :
  jobs s !! task_jobID t = Some j →
  counted (task_pc t) j →
  task_jobID (task_step now reply fault t s).1.1 = task_jobID t ∧
  (∀ id, id ≠ task_jobID t →
     jobs (task_step now reply fault t s).1.2 !! id = jobs s !! id) ∧
  ∃ j', jobs (task_step now reply fault t s).1.2 !! task_jobID t = Some j' ∧
    counted (task_pc (task_step now reply fault t s).1.1) j'.
Proof.
  intros Hj [H0 Hc]. split; [apply task_step_jobID|].
  unfold task_step. destruct (task_pc t) as [a|a|a err|a|a|] eqn:Hpc; cbn in *.
  - destruct fault as [msg|]; cbn.
    + split; [done|]. exists j. split; [done|]. unfold counted. cbn. lia.
    + split; [intros id Hid; by apply lookup_alter_ne|].
      rewrite lookup_alter_eq, Hj. eexists. split; [reflexivity|].
      unfold counted. cbn. lia.
  - destruct reply as [err|]; [destruct (Z.eqb_spec a maxAttempts)|]; cbn.
    + split; [done|]. exists j. split; [done|]. unfold counted. cbn. lia.
    + split; [done|]. exists j. split; [done|]. unfold counted. cbn. lia.
    + split; [done|]. exists j. split; [done|]. unfold counted. cbn. lia.
  - destruct fault as [msg|]; cbn.
    + split; [done|]. exists j. split; [done|]. unfold counted. cbn. lia.
    + split; [intros id Hid; by apply lookup_alter_ne|].
      rewrite lookup_alter_eq, Hj. eexists. split; [reflexivity|].
      unfold counted. cbn. lia.
  - split; [done|]. exists j. split; [done|].
    unfold loop_head, counted. unfold maxAttempts in *.
    destruct (Z.leb_spec (a + 1) 3); cbn; lia.
  - destruct fault as [msg|]; cbn.
    + split; [done|]. exists j. split; [done|]. unfold counted. cbn. lia.
    + split; [intros id Hid; by apply lookup_alter_ne|].
      rewrite lookup_alter_eq, Hj. eexists. split; [reflexivity|].
      unfold counted. cbn. lia.
  - split; [done|]. exists j. split; [done|]. rewrite Hpc. unfold counted. cbn. lia.
Qed.

Lemma alter_status_similar status msg now id0 (m : gmap string Job) id :
  match m !! id with
  | Some j => ∃ j', alter (with_status status msg now) id0 m !! id = Some j' ∧
                Job_Attempts j' = Job_Attempts j
  | None => alter (with_status status msg now) id0 m !! id = None
  end.
Proof.
  destruct (decide (id0 = id)) as [->|Hne].
  - rewrite lookup_alter_eq. destruct (m !! id) as [j|]; [|done].
    eexists. split; [reflexivity|done].
  - rewrite lookup_alter_ne by done. destruct (m !! id) as [j|]; eauto.
Qed.

Lemma handler_step_similar now fault h s id :
  match jobs s !! id with
  | Some j => ∃ j', jobs (handler_step now fault h s).2 !! id = Some j' ∧
                Job_Attempts j' = Job_Attempts j
  | None => jobs (handler_step now fault h s).2 !! id = None
  end.
Proof.
  assert (match jobs s !! id with
          | Some j => ∃ j', jobs s !! id = Some j' ∧ Job_Attempts j' = Job_Attempts j
          | None => jobs s !! id = None
          end) as Hsame by (destruct (jobs s !! id); eauto).
  destruct (handler_step_cases now fault h s) as [_ H].
  destruct (handler_pc h) as [|fp| |msg|err].
  - destruct H as [-> _]. exact Hsame.
  - destruct H as [[-> _]|(_ & -> & _)]; exact Hsame.
  - destruct H as [[-> _]|(_ & -> & _)]; [exact Hsame|].
    apply alter_status_similar.
  - destruct H as [[-> _]|(_ & -> & _)]; [exact Hsame|].
    apply alter_status_similar.
  - rewrite H. exact Hsame.
Qed.

Lemma NoDup_fmap_lookup {A B} (f : A → B) (l : list A) i k x y :
  NoDup (f <$> l) → l !! i = Some x → l !! k = Some y → f x = f y → i = k.
Proof.
  intros Hnd Hi Hk Heq.
  apply (NoDup_lookup (f <$> l) i k (f x)); [done| |].
  - by rewrite list_lookup_fmap, Hi.
  - by rewrite list_lookup_fmap, Hk, Heq.
Qed.

Lemma loop_head_first : loop_head 1 = AtIncrement 1.
Proof. reflexivity. Qed.

Lemma step_scheduled json_Marshal a w :
  scheduled w → scheduled (step json_Marshal a w).
Proof.
  intros (Hnd & Hrow & Hloop).
  destruct a as [jobID now fault body|req|i now fault|jobID|i now reply fault];
    cbn [step].
  - pose proof (handleCreateRingtone_write json_Marshal jobID now fault body (db w)) as H.
    destruct (handleCreateRingtone _ _ _ _ _ _) as [[s1 resp] spawned].
    destruct H as [[-> ->]|(Hfresh & (row & Hid & Hq & Hatt & Herr & ->) & sp & -> & Hsp)].
    { rewrite app_nil_r. by split; [|split]. }
    assert (∀ t, t ∈ tasks w → task_jobID t ≠ jobID) as Hother.
    { intros t Ht Heq. destruct (Hrow t Ht) as (j & Hj & _). congruence. }
    split; [|split]; cbn [db tasks jobs set_jobs].
    + rewrite fmap_app. apply NoDup_app. split; [done|]. split.
      * intros id [t [-> Ht]]%list_elem_of_fmap Hin. cbn in Hin.
        apply list_elem_of_singleton in Hin. apply (Hother t Ht). congruence.
      * apply NoDup_singleton.
    + intros t [Ht|Ht]%elem_of_app.
      * destruct (Hrow t Ht) as (j & Hj & Hc). exists j. split; [|done].
        rewrite lookup_insert_ne; [done|]. specialize (Hother t Ht). congruence.
      * apply list_elem_of_singleton in Ht as ->. exists row.
        unfold spawn. cbn [task_jobID task_pc]. rewrite Hsp, lookup_insert_eq.
        split; [done|]. rewrite loop_head_first. unfold counted, maxAttempts. lia.
    + intros id. destruct (decide (jobID = id)) as [<-|Hne].
      * intros _. exists (spawn sp). split; [|done].
        apply elem_of_app. right. by apply list_elem_of_singleton.
      * rewrite lookup_insert_ne by done. intros Hsome.
        destruct (Hloop id Hsome) as (t & Ht & Htid). exists t. split; [|done].
        apply elem_of_app. by left.
  - by split; [|split].
  - destruct (handlers w !! i) as [h|] eqn:Hi; [|by split; [|split]].
    pose proof (handler_step_similar now fault h (db w)) as Hsim.
    destruct (handler_step now fault h (db w)) as [h' s1]. cbn [snd] in Hsim.
    split; [|split]; cbn [db tasks].
    + done.
    + intros t Ht. destruct (Hrow t Ht) as (j & Hj & Hc).
      specialize (Hsim (task_jobID t)). rewrite Hj in Hsim.
      destruct Hsim as (j' & Hj' & Hatt).
      exists j'. split; [done|]. by eapply counted_similar.
    + intros id Hsome. apply Hloop. specialize (Hsim id).
      destruct (jobs (db w) !! id) eqn:Hid; [eauto|].
      rewrite Hsim in Hsome. by destruct Hsome.
  - pose proof (GetJobStatus_store jobID (db w)) as H.
    destruct (GetJobStatus jobID (db w)) as [s1 r]. cbn in H. subst s1.
    by split; [|split].
  - destruct (tasks w !! i) as [t|] eqn:Hi; [|by split; [|split]].
    assert (t ∈ tasks w) as Ht by (apply list_elem_of_lookup; eauto).
    destruct (Hrow t Ht) as (j & Hj & Hc).
    pose proof (task_step_counted now reply fault t (db w) j Hj Hc)
      as (Hid & Hframe & j' & Hj' & Hc').
    destruct (task_step now reply fault t (db w)) as [[t' s1] evs]. cbn [fst snd] in *.
    split; [|split]; cbn [db tasks].
    + rewrite list_fmap_insert, Hid. rewrite list_insert_id; [done|].
      by rewrite list_lookup_fmap, Hi.
    + intros t2 Ht2. apply list_elem_of_lookup in Ht2 as [k Hk].
      apply list_lookup_insert_Some in Hk as [(-> & -> & _)|[Hik Hk]].
      * exists j'. by rewrite Hid.
      * assert (t2 ∈ tasks w) as Ht2 by (apply list_elem_of_lookup; eauto).
        destruct (Hrow t2 Ht2) as (j2 & Hj2 & Hc2). exists j2. split; [|done].
        rewrite Hframe; [done|]. intros Heq. apply Hik.
        by apply (NoDup_fmap_lookup task_jobID (tasks w) i k t t2).
    + intros id Hsome.
      assert (is_Some (jobs (db w) !! id)) as Hold.
      { destruct (decide (id = task_jobID t)) as [->|Hne]; [eauto|].
        by rewrite <-(Hframe id Hne). }
      destruct (Hloop id Hold) as (t2 & Ht2 & Htid).
      apply list_elem_of_lookup in Ht2 as [k Hk].
      destruct (decide (i = k)) as [<-|Hik].
      * exists t'. split.
        -- apply list_elem_of_lookup. exists i. apply list_lookup_insert_Some.
           left. split; [done|]. split; [done|]. by apply lookup_lt_Some in Hi.
        -- assert (t2 = t) as -> by congruence. congruence.
      * exists t2. split; [|done]. apply list_elem_of_lookup. exists k.
        apply list_lookup_insert_Some. by right.
Qed.

Lemma reachable_scheduled json_Marshal w : reachable json_Marshal w → scheduled w.
Proof.
  intros (fk & acts & ->). induction acts as [|a acts IH] using rev_ind.
  - split; [constructor|]. split.
    + by intros t Ht%elem_of_nil.
    + intros id. cbn. rewrite lookup_empty. by intros [? ?].
  - rewrite run_snoc. by apply step_scheduled.
Qed.

(** X28.  In every reachable state each job has its retry loop and no
    two loops work on the same job: the identifiers of the tasks are
    pairwise distinct, every task belongs to a job of the store, and every
    job of the store has a task. *)
Lemma reachable_one_loop_per_job json_Marshal w :
  reachable json_Marshal w →
  NoDup (task_jobID <$> tasks w) ∧
  ∀ id, is_Some (jobs (db w) !! id) ↔ ∃ t, t ∈ tasks w ∧ task_jobID t = id.
Proof.
  intros (Hnd & Hrow & Hloop)%reachable_scheduled. split; [done|].
  intros id. split; [apply Hloop|].
  intros (t & Ht & <-). destruct (Hrow t Ht) as (j & Hj & _). eauto.
Qed.

Lemma reachable_one_loop_per_job_witness :
  let w := run encoder delivered_twice (initial true) in
  NoDup (task_jobID <$> tasks w) ∧
  ∀ id, is_Some (jobs (db w) !! id) ↔ ∃ t, t ∈ tasks w ∧ task_jobID t = id.
Proof.
  apply (reachable_one_loop_per_job encoder).
  exists true, delivered_twice. reflexivity.
Defined.

(** X29.  In every reachable state the counter of attempts of a job is
    between zero and three: whatever the schedule, the answers of the
    webhook and the writes the engine refuses, no job is counted more than
    [maxAttempts] attempts. *)
Lemma reachable_attempts_bounded json_Marshal w id j :
  reachable json_Marshal w →
  jobs (db w) !! id = Some j →
  (0 ≤ Job_Attempts j ≤ maxAttempts)%Z.
Proof.
  intros (Hnd & Hrow & Hloop)%reachable_scheduled Hj.
  destruct (Hloop id) as (t & Ht & <-); [eauto|].
  destruct (Hrow t Ht) as (j' & Hj' & [H0 Hc]).
  assert (j' = j) as -> by congruence.
  destruct (task_pc t); unfold maxAttempts in *; lia.
Qed.

Lemma reachable_attempts_bounded_witness :
  (0 ≤ Job_Attempts job_completed ≤ maxAttempts)%Z.
Proof.
  apply (reachable_attempts_bounded encoder
           (run encoder (dispatched ++ delivered 0 report_completed 20) (initial true))
           "job1" job_completed).
  - exists true, (dispatched ++ delivered 0 report_completed 20). reflexivity.
  - reflexivity.
Defined.
